(** * Renderer (src/ui/renderer.py): drawing the board, the tokens and the
      status panel of the dice game

    The renderer is embedded as state-passing code.  A [World] holds the
    objects the caller owns (board, player list, animation manager, game
    logic) next to the pygame surface; every method of [Renderer] is a
    function [World -> World * (Exn + A)].  The surface is the list of
    drawing calls issued so far, in order.

    Pixel coordinates, money and dice values are Python integers ([Z]);
    [//] and [%] are floor division and its remainder ([Z.div], [Z.modulo]).
    Python strings are kept as their UTF-8 bytes.

    The calls into pygame are taken to succeed: the checks pygame makes on
    its own arguments (a colour component above 255, a text with a NUL, a
    coordinate beyond a C int) are not part of the model, and the only
    exception below is the [IndexError] of the renderer's own subscription. *)

From Stdlib Require Import ZArith String Lia.
From stdpp Require Import base list strings pretty.

Open Scope Z_scope.

(** ** pygame values *)

Definition Color : Type := Z * Z * Z.
Definition Point : Type := Z * Z.

(** [pygame.Rect(left, top, width, height)]. *)
Record Rect := mkRect { left : Z; top : Z; width : Z; height : Z }.

(** [Rect.center]. *)
Definition center (r : Rect) : Point := (left r + width r / 2, top r + height r / 2).

(** The result of [self.font.render(text, True, color)]. *)
Record Text := render { text_of : string; color_of : Color }.

(** Where a rendered text is blitted: at a top-left corner, or through
    [text.get_rect(center=...)]. *)
Inductive Anchor :=
| TopLeft (p : Point)
| Centered (p : Point).

(** The calls that write pixels. *)
Inductive DrawOp :=
| Fill (c : Color)                                       (* screen.fill(c) *)
| DrawRect (c : Color) (r : Rect) (border : Z)           (* pygame.draw.rect; border 0 = filled *)
| DrawCircle (c : Color) (p : Point) (radius border : Z) (* pygame.draw.circle *)
| Blit (t : Text) (a : Anchor).                          (* screen.blit *)

(** ** Collaborators (models/, utils/): only their interface is used here

    Their code is not part of this file.  An attribute is a field; a method
    without effect on the renderer's side ([cell.is_home_cell()],
    [game_logic.is_game_over()], ...) is the value it returns for the frame
    being drawn, and a method with arguments is a function of them. *)

(** models.constants; [HOME_COLORS] is a sequence subscripted by the owner. *)
Class Constants := {
  WHITE : Color; BLACK : Color; RED : Color; GREEN : Color; GRAY : Color;
  LIGHT_BLUE : Color; GOLD : Color;
  HOME_COLORS : list Color;
  CELL_SIZE : Z; WINDOW_WIDTH : Z; WINDOW_HEIGHT : Z;
  REWARD_COLOR : Color; DISCARD_COLOR : Color
}.

(** utils.config_manager.config_manager *)
Class ConfigManager := { get_nickname : string }.

(** A cell as the renderer sees it: the three role predicates and the owner. *)
Record Cell := {
  is_home_cell : bool;
  is_reward_cell : bool;
  is_penalty_cell : bool;
  owner : Z
}.

Record Board := {
  cell_positions : list Point;
  get_cell : Z -> Cell;
  get_cell_position : Z -> Point
}.

(** [name] is [None] when the player object has no attribute [name]. *)
Record Player := {
  id : Z;
  money : Z;
  color : Color;
  is_ai : bool;
  name : option string;
  position : Z;
  get_player_type_name : string
}.

Record AnimationManager := {
  player_moving : bool;
  moving_player_id : Z;
  get_animated_player_position : Z -> Board -> Point
}.

(** [is_local_player_turn] and [player_slot] exist only on the network game
    logic: [None] is an absent attribute ([hasattr] false), [Some b] the
    value the method returns, [Some k] the value of the attribute. *)
Record GameLogic := {
  players : list Player;
  current_player : Z;
  dice_result : Z;
  effect_dice_result : Z;
  message : string;
  waiting_for_effect_dice : bool;
  is_game_over : bool;
  get_current_player : Player;
  is_local_player_turn : option bool;
  player_slot : option Z
}.

Definition hasattr {A} (attr : option A) : bool :=
  match attr with Some _ => true | None => false end.

(** ** The world and the monad of drawing code *)

Record Inputs := {
  the_board : Board;
  the_players : list Player;
  the_animation : AnimationManager;
  the_game_logic : GameLogic
}.

Record World := { inputs : Inputs; screen : list DrawOp }.

Inductive Exn := IndexError.

Definition M (A : Type) : Type := World -> World * (Exn + A).

Definition ret {A} (a : A) : M A := fun w => (w, inr a).

Definition bind {A B} (m : M A) (k : A -> M B) : M B :=
  fun w => match m w with
           | (w', inr a) => k a w'
           | (w', inl e) => (w', inl e)
           end.

Definition lift {A} (r : Exn + A) : M A := fun w => (w, r).

(** Appending drawing calls to the surface of a world. *)
Definition drawn (w : World) (ops : list DrawOp) : World :=
  {| inputs := inputs w; screen := screen w ++ ops |}.

Definition paint (op : DrawOp) : M unit := fun w => (drawn w [op], inr tt).

Declare Scope draw_scope.
Delimit Scope draw_scope with draw.
Notation "x <- m ;; k" := (bind m (fun x => k))
  (at level 100, m at next level, right associativity) : draw_scope.
Notation "m ;; k" := (bind m (fun _ => k))
  (at level 100, right associativity) : draw_scope.
Open Scope draw_scope.

(** [for i, x in enumerate(l): s = body(i, x, s)], starting at index [i]. *)
Fixpoint for_enumerate {A St} (body : nat -> A -> St -> M St)
    (i : nat) (l : list A) (s : St) : M St :=
  match l with
  | [] => ret s
  | x :: l' => s' <- body i x s ;; for_enumerate body (S i) l' s'
  end.

(** [emits m ops r]: from every world, [m] appends exactly [ops] to the
    surface, touches nothing else, and ends with [r]. *)
Definition emits {A} (m : M A) (ops : list DrawOp) (r : Exn + A) : Prop :=
  forall w, m w = (drawn w ops, r).

(** A [writer] only ever appends to the surface, whatever its outcome. *)
Definition writer {A} (m : M A) : Prop := exists ops r, emits m ops r.

(** The indices at which [l[k]] is defined. *)
Definition valid_index {A} (l : list A) (k : Z) : Prop :=
  - Z.of_nat (length l) <= k < Z.of_nat (length l).

(** Python subscription [l[k]] of a list by an integer: a negative index
    counts from the end, an index out of range raises [IndexError]. *)
Definition getitem {A} (l : list A) (k : Z) : Exn + A :=
  let n := Z.of_nat (length l) in
  let k' := if k <? 0 then k + n else k in
  if k' <? 0 then inl IndexError
  else match l !! Z.to_nat k' with
       | Some a => inr a
       | None => inl IndexError
       end.

(** [str(n)] of an integer. *)
Definition str (n : Z) : string := pretty n.

Section Renderer.
Context {constants : Constants} {config_manager : ConfigManager}.

(** ** draw_board *)

(** Lines 54-62: the fill colour of a cell. *)
Definition select_fill_color (cell : Cell) : Exn + Color :=
  if is_home_cell cell then getitem HOME_COLORS (owner cell)
  else if is_reward_cell cell then inr REWARD_COLOR
  else if is_penalty_cell cell then inr DISCARD_COLOR
  else inr GRAY.

(** Lines 75-83: the type label of a cell. *)
Definition type_text (cell : Cell) : string :=
  if is_home_cell cell then "H" +:+ str (owner cell + 1)
  else if is_reward_cell cell then "奖励"
  else if is_penalty_cell cell then "丢弃"
  else "普通".

(** The square of side [CELL_SIZE] drawn for a cell at [(x, y)]. *)
Definition cell_rect (p : Point) : Rect :=
  mkRect (p.1 - CELL_SIZE / 2) (p.2 - CELL_SIZE / 2) CELL_SIZE CELL_SIZE.

(** Lines 52-87: the body of the loop over [enumerate(board.cell_positions)]. *)
Definition draw_cell (board : Board) (i : nat) (p : Point) (_ : unit) : M unit :=
  let '(x, y) := p in
  let cell := get_cell board (Z.of_nat i) in
  color <- lift (select_fill_color cell) ;;
  paint (DrawRect color (cell_rect (x, y)) 0) ;;
  paint (DrawRect BLACK (cell_rect (x, y)) 2) ;;
  paint (Blit (render (str (Z.of_nat i)) BLACK) (Centered (x, y - 20))) ;;
  paint (Blit (render (type_text cell) BLACK) (Centered (x, y + 10))).

Definition draw_board (board : Board) : M unit :=
  paint (Fill WHITE) ;;
  for_enumerate (draw_cell board) 0%nat (cell_positions board) tt.

(** A home cell whose owner has an entry in [HOME_COLORS]; any other cell. *)
Definition well_owned (cell : Cell) : Prop :=
  is_home_cell cell = true -> valid_index HOME_COLORS (owner cell).

(** ** draw_players *)

(** Lines 106-107: the offset that keeps tokens on one cell apart. *)
Definition offset_x (i : Z) : Z := (i mod 2) * 15 - 7.
Definition offset_y (i : Z) : Z := (i / 2) * 15 - 7.

(** The test of lines 100 and 110. *)
Definition is_moving (animation_manager : AnimationManager) (i : Z) : bool :=
  player_moving animation_manager && (moving_player_id animation_manager =? i).

(** Lines 100-103: where a player is on screen in this frame. *)
Definition player_screen_position (animation_manager : AnimationManager)
    (board : Board) (i : Z) (player : Player) : Point :=
  if is_moving animation_manager i
  then get_animated_player_position animation_manager i board
  else get_cell_position board (position player).

(** Lines 99-118: the body of the loop over [enumerate(players)]. *)
Definition draw_player (board : Board) (animation_manager : AnimationManager)
    (i : nat) (player : Player) (_ : unit) : M unit :=
  let i := Z.of_nat i in
  let '(pos_x, pos_y) := player_screen_position animation_manager board i player in
  let offset_x := offset_x i in
  let offset_y := offset_y i in
  (if is_moving animation_manager i
   then paint (DrawCircle GOLD (pos_x + offset_x, pos_y + offset_y) 12 2)
   else ret tt) ;;
  paint (DrawCircle (color player) (pos_x + offset_x, pos_y + offset_y) 8 0) ;;
  paint (DrawCircle BLACK (pos_x + offset_x, pos_y + offset_y) 8 2).

Definition draw_players (players : list Player) (board : Board)
    (animation_manager : AnimationManager) : M unit :=
  for_enumerate (draw_player board animation_manager) 0%nat players tt.

(** The drawing calls of one token: the ring of the moving player, the disc
    and its outline. *)
Definition token (highlight : bool) (c : Color) (p : Point) : list DrawOp :=
  (if highlight then [DrawCircle GOLD p 12 2] else []) ++
  [DrawCircle c p 8 0; DrawCircle BLACK p 8 2].

(** The centre of the token of the player at list index [i]. *)
Definition token_center (animation_manager : AnimationManager) (board : Board)
    (i : Z) (player : Player) : Point :=
  let pos := player_screen_position animation_manager board i player in
  (pos.1 + offset_x i, pos.2 + offset_y i).

(** ** draw_ui *)

(** Lines 133-149: the text of a player's line before it is marked. *)
Definition player_text (game_logic : GameLogic) (i : Z) (player : Player) : string :=
  let player_type := get_player_type_name player in
  let is_network_game := hasattr (is_local_player_turn game_logic) in
  if negb (is_ai player) then
    let own := "玩家" +:+ str (i + 1) +:+ "(" +:+ get_nickname +:+ "): "
               +:+ str (money player) +:+ "金币" in
    match name player with
    | Some player_name =>
        if is_network_game && negb (String.eqb player_name get_nickname)
        then "玩家" +:+ str (i + 1) +:+ "(" +:+ player_name +:+ "): "
             +:+ str (money player) +:+ "金币"
        else own
    | None => own
    end
  else player_type +:+ str (i + 1) +:+ ": " +:+ str (money player) +:+ "金币".

(** Lines 152-158: is slot [i] marked as the local player? *)
Definition is_local_player (game_logic : GameLogic) (i : Z) (player : Player) : bool :=
  match is_local_player_turn game_logic, player_slot game_logic with
  | Some _, Some slot => i =? slot
  | _, _ => negb (is_ai player)
  end.

(** Lines 160-166: the marks put around the text, and the colour. *)
Definition player_line (game_logic : GameLogic) (i : Z) (player : Player) : Text :=
  let text := player_text game_logic i player in
  let text := if is_local_player game_logic i player then "[你] " +:+ text else text in
  let text := if i =? current_player game_logic then ">>> " +:+ text +:+ " <<<" else text in
  let color := if negb (i =? current_player game_logic) then BLACK else RED in
  render text color.

(** Lines 131-169: one line per player; the result is [y_offset] after the loop. *)
Definition draw_player_line (game_logic : GameLogic)
    (i : nat) (player : Player) (y_offset : Z) : M Z :=
  paint (Blit (player_line game_logic (Z.of_nat i) player) (TopLeft (10, y_offset))) ;;
  ret (y_offset + 30).

Definition draw_player_lines (game_logic : GameLogic) : M Z :=
  for_enumerate (draw_player_line game_logic) 0%nat (players game_logic) 10.

(** Lines 190-204: how the current player is called in the status line. *)
Definition current_player_name (game_logic : GameLogic) : string :=
  let current_player := get_current_player game_logic in
  if negb (is_ai current_player) then
    let is_network_game := hasattr (is_local_player_turn game_logic) in
    let own := "玩家" +:+ str (id current_player + 1) +:+ "(" +:+ get_nickname +:+ ")" in
    match name current_player with
    | Some player_name =>
        if is_network_game && negb (String.eqb player_name get_nickname)
        then "玩家" +:+ str (id current_player + 1) +:+ "(" +:+ player_name +:+ ")"
        else own
    | None => own
    end
  else get_player_type_name current_player +:+ str (id current_player + 1).

(** Lines 171-217: dice results, message and status line. *)
Definition draw_status (game_logic : GameLogic) (y_offset : Z) : M unit :=
  y_offset <-
    (if dice_result game_logic >? 0 then
       paint (Blit (render ("移动骰子点数: " +:+ str (dice_result game_logic)) BLACK)
                   (TopLeft (10, y_offset + 20))) ;;
       ret (y_offset + 25)
     else ret y_offset) ;;
  (if effect_dice_result game_logic >? 0 then
     paint (Blit (render ("效果骰子点数: " +:+ str (effect_dice_result game_logic)) BLACK)
                 (TopLeft (10, y_offset + 20)))
   else ret tt) ;;
  paint (Blit (render (message game_logic) BLACK) (TopLeft (10, WINDOW_HEIGHT - 80))) ;;
  let current_player_name := current_player_name game_logic in
  let '(status_text, status_color) :=
    if waiting_for_effect_dice game_logic
    then ("等待 " +:+ current_player_name +:+ " 投掷效果骰子...", GOLD)
    else (current_player_name +:+ " 的回合", BLACK) in
  paint (Blit (render status_text status_color)
              (Centered (WINDOW_WIDTH / 2, WINDOW_HEIGHT - 40))).

(** Lines 221-229. *)
Definition should_show_button (game_logic : GameLogic) : bool :=
  match is_local_player_turn game_logic with
  | Some local_turn => local_turn
  | None => negb (is_ai (get_current_player game_logic))
  end.

(** Lines 231-265: the button, and the rectangle handed back to the caller. *)
Definition draw_button (game_logic : GameLogic) : M (option Rect) :=
  let should_show_button := should_show_button game_logic in
  if is_game_over game_logic then
    let button_rect := mkRect (WINDOW_WIDTH - 150) (WINDOW_HEIGHT - 60) 120 40 in
    paint (DrawRect GREEN button_rect 0) ;;
    paint (DrawRect BLACK button_rect 2) ;;
    paint (Blit (render "重新开始" BLACK) (Centered (center button_rect))) ;;
    ret (Some button_rect)
  else if waiting_for_effect_dice game_logic && should_show_button then
    let button_rect := mkRect (WINDOW_WIDTH - 150) (WINDOW_HEIGHT - 60) 120 40 in
    paint (DrawRect GOLD button_rect 0) ;;
    paint (DrawRect BLACK button_rect 2) ;;
    paint (Blit (render "投骰子" BLACK) (Centered (center button_rect))) ;;
    ret (Some button_rect)
  else if should_show_button then
    let button_rect := mkRect (WINDOW_WIDTH - 150) (WINDOW_HEIGHT - 60) 120 40 in
    paint (DrawRect LIGHT_BLUE button_rect 0) ;;
    paint (DrawRect BLACK button_rect 2) ;;
    paint (Blit (render "投骰子" BLACK) (Centered (center button_rect))) ;;
    ret (Some button_rect)
  else ret None.

(** The rectangle every branch of lines 231-263 builds. *)
Definition button_rect : Rect := mkRect (WINDOW_WIDTH - 150) (WINDOW_HEIGHT - 60) 120 40.

(** The drawing calls of a button: its face, its outline, its label. *)
Definition button (fill : Color) (label : string) : list DrawOp :=
  [ DrawRect fill button_rect 0;
    DrawRect BLACK button_rect 2;
    Blit (render label BLACK) (Centered (center button_rect)) ].

(** Lines 130-217: everything drawn before the button. *)
Definition draw_panel (game_logic : GameLogic) : M unit :=
  y_offset <- draw_player_lines game_logic ;;
  draw_status game_logic y_offset.

Definition draw_ui (game_logic : GameLogic) : M (option Rect) :=
  draw_panel game_logic ;;
  draw_button game_logic.

End Renderer.

(** ** A concrete game, on which the renderer is evaluated below *)

Module Sample.

Definition constants : Constants := {|
  WHITE := (255, 255, 255); BLACK := (0, 0, 0); RED := (255, 0, 0);
  GREEN := (0, 255, 0); GRAY := (128, 128, 128);
  LIGHT_BLUE := (173, 216, 230); GOLD := (255, 215, 0);
  HOME_COLORS := [(255, 200, 200); (200, 255, 200); (200, 200, 255); (255, 255, 200)];
  CELL_SIZE := 60; WINDOW_WIDTH := 1000; WINDOW_HEIGHT := 700;
  REWARD_COLOR := (144, 238, 144); DISCARD_COLOR := (255, 182, 193)
|}.

Definition config_manager : ConfigManager := {| get_nickname := "Ann" |}.

Definition plain : Cell :=
  {| is_home_cell := false; is_reward_cell := false; is_penalty_cell := false; owner := 0 |}.
Definition home (k : Z) : Cell :=
  {| is_home_cell := true; is_reward_cell := false; is_penalty_cell := false; owner := k |}.
Definition reward : Cell :=
  {| is_home_cell := false; is_reward_cell := true; is_penalty_cell := false; owner := 0 |}.

(** Three cells in a row: the home of player 1, a reward cell, a plain cell. *)
Definition board : Board := {|
  cell_positions := [(100, 100); (200, 100); (300, 100)];
  get_cell := fun i => if i =? 0 then home 0 else if i =? 1 then reward else plain;
  get_cell_position := fun i => (100 + 100 * i, 100)
|}.

(** Two cells; the second is a home cell of a fifth player, for whom
    [HOME_COLORS] has no entry. *)
Definition stray_board : Board := {|
  cell_positions := [(100, 100); (200, 100)];
  get_cell := fun i => if i =? 0 then plain else home 4;
  get_cell_position := fun i => (100 + 100 * i, 100)
|}.

Definition human (k : Z) (stored_name : string) : Player := {|
  id := k; money := 100; color := (200, 0, 0); is_ai := false;
  name := Some stored_name; position := 2; get_player_type_name := "玩家"
|}.
Definition robot (k : Z) : Player := {|
  id := k; money := 80; color := (0, 0, 200); is_ai := true;
  name := None; position := 2; get_player_type_name := "AI"
|}.

(** Player 1 (list index 1) is half-way between two cells. *)
Definition animation : AnimationManager := {|
  player_moving := true; moving_player_id := 1;
  get_animated_player_position := fun _ _ => (250, 100)
|}.

(** Nobody is moving. *)
Definition still : AnimationManager := {|
  player_moving := false; moving_player_id := 1;
  get_animated_player_position := fun _ _ => (250, 100)
|}.

(** A game on one machine: [seats] in order, [turn] the index of the
    current player, [current] the object [get_current_player()] returns. *)
Definition local_game (seats : list Player) (turn : Z) (current : Player)
    (waiting over : bool) : GameLogic := {|
  players := seats; current_player := turn;
  dice_result := 0; effect_dice_result := 0; message := "";
  waiting_for_effect_dice := waiting; is_game_over := over;
  get_current_player := current;
  is_local_player_turn := None; player_slot := None
|}.

(** A network game seen from slot 0, whose turn it is. *)
Definition network_game (seats : list Player) : GameLogic := {|
  players := seats; current_player := 0;
  dice_result := 3; effect_dice_result := 0; message := "";
  waiting_for_effect_dice := false; is_game_over := false;
  get_current_player := human 0 "Ann";
  is_local_player_turn := Some true; player_slot := Some 0
|}.

(** Two people sharing one machine; it is the first one's turn. *)
Definition hotseat_game : GameLogic :=
  local_game [human 0 "Ann"; human 1 "Bea"] 0 (human 0 "Ann") false false.

Definition world : World := {|
  inputs := {| the_board := board;
               the_players := [human 0 "Ann"; robot 1];
               the_animation := animation;
               the_game_logic := local_game [human 0 "Ann"; robot 1] 0 (human 0 "Ann") false false |};
  screen := []
|}.

End Sample.

(** ** Renderer.__init__ and init_fonts *)

(** pygame.font.  [Font(path, size)] raises when the file cannot be loaded,
    which is [None] here; [SysFont(name, size)] answers with a font in any
    case (pygame's default font when the name is unknown). *)
Class PygameFont := {
  font_object : Type;
  Font : string -> Z -> option font_object;
  SysFont : string -> Z -> font_object
}.

(** The attributes of a [Renderer]; [None] is an attribute that is not set. *)
Record RendererObject {pygame_font : PygameFont} := {
  self_screen : list DrawOp;
  self_font : option font_object;
  self_big_font : option font_object
}.

Section Fonts.
Context {pygame_font : PygameFont}.

(** Lines 29-30 and 34-35: the two assignments inside a [try].  The result
    is the object as the block left it, and whether the block ran to its
    end ([false]: one of the two calls raised). *)
Definition load_fonts (path : string) (self : RendererObject) : RendererObject * bool :=
  match Font path 20 with
  | None => (self, false)
  | Some f =>
      let self := {| self_screen := self_screen self;
                     self_font := Some f;
                     self_big_font := self_big_font self |} in
      match Font path 32 with
      | None => (self, false)
      | Some g =>
          ({| self_screen := self_screen self;
              self_font := self_font self;
              self_big_font := Some g |}, true)
      end
  end.

Definition init_fonts (self : RendererObject) : RendererObject :=
  let '(self, complete) := load_fonts "C:/Windows/Fonts/simhei.ttf" self in
  if complete then self
  else
    let '(self, complete) := load_fonts "C:/Windows/Fonts/msyh.ttc" self in
    if complete then self
    else
      let self := {| self_screen := self_screen self;
                     self_font := Some (SysFont "microsoftyaheimicrosoftyaheiui" 20);
                     self_big_font := self_big_font self |} in
      {| self_screen := self_screen self;
         self_font := self_font self;
         self_big_font := Some (SysFont "microsoftyaheimicrosoftyaheiui" 32) |}.

(** [Renderer(screen)]. *)
Definition __init__ (screen : list DrawOp) : RendererObject :=
  init_fonts {| self_screen := screen; self_font := None; self_big_font := None |}.

End Fonts.

(** The ring around the moving player, among the drawing calls. *)
Definition is_ring (op : DrawOp) : bool :=
  match op with
  | DrawCircle _ _ 12 2 => true
  | _ => false
  end.

Definition ring_count (ops : list DrawOp) : nat := length (List.filter is_ring ops).

Module SampleFonts.

(** A machine on which simhei.ttf loads at size 20 only and msyh.ttc loads
    at every size. *)
Definition pygame_font : PygameFont := {|
  font_object := string * Z;
  Font := fun path size =>
    if String.eqb path "C:/Windows/Fonts/msyh.ttc" then Some (path, size)
    else if String.eqb path "C:/Windows/Fonts/simhei.ttf" && (size =? 20)
         then Some (path, size) else None;
  SysFont := fun name size => (name, size)
|}.

End SampleFonts.

(** ** The renderer on the caller's own objects

    Above, a method of the renderer is given the values its arguments hold,
    and a method of a collaborator is the value it returns.  Here the
    arguments are the objects of the world themselves: [draw_board(board)],
    [draw_players(players, board, animation_manager)] and
    [draw_ui(game_logic)] are called with the board, the player list, the
    animation manager and the game logic the world holds.  An attribute of
    one of them is read from the world at the moment the code reads it, and
    a method of a collaborator is whatever code is behind it: a call may
    change the world, and may raise. *)

(** Reading attributes of the caller's objects.  Attributes read one after
    the other with no call in between are read at once. *)
Definition read {A} (f : Inputs -> A) : M A := fun w => (w, inr (f (inputs w))).

(** The methods the renderer calls, by the code that is behind them. *)
Class Methods := {
  call_get_cell : Z -> M Cell;                       (* board.get_cell(i) *)
  call_is_home_cell : Cell -> M bool;                (* cell.is_home_cell() *)
  call_is_reward_cell : Cell -> M bool;              (* cell.is_reward_cell() *)
  call_is_penalty_cell : Cell -> M bool;             (* cell.is_penalty_cell() *)
  call_get_cell_position : Z -> M Point;             (* board.get_cell_position(p) *)
  call_get_animated_player_position : Z -> M Point;  (* animation_manager.get_animated_player_position(i, board) *)
  call_get_player_type_name : Player -> M string;    (* player.get_player_type_name() *)
  call_get_nickname : M string;                      (* config_manager.get_nickname() *)
  call_get_current_player : M Player;                (* game_logic.get_current_player() *)
  call_is_local_player_turn : M bool;                (* game_logic.is_local_player_turn() *)
  call_is_game_over : M bool                         (* game_logic.is_game_over() *)
}.

(** [keeps m]: whatever [m] does and however it ends, the caller's objects
    are as before and the surface has only been drawn on. *)
Definition keeps {A} (m : M A) : Prop :=
  forall w, inputs (m w).1 = inputs w /\ exists ops, screen (m w).1 = screen w ++ ops.

(** Collaborators none of whose methods changes the caller's objects. *)
Record ReadOnly (methods : Methods) : Prop := {
  keeps_get_cell : forall i, keeps (call_get_cell i);
  keeps_is_home_cell : forall cell, keeps (call_is_home_cell cell);
  keeps_is_reward_cell : forall cell, keeps (call_is_reward_cell cell);
  keeps_is_penalty_cell : forall cell, keeps (call_is_penalty_cell cell);
  keeps_get_cell_position : forall p, keeps (call_get_cell_position p);
  keeps_get_animated_player_position :
    forall i, keeps (call_get_animated_player_position i);
  keeps_get_player_type_name : forall player, keeps (call_get_player_type_name player);
  keeps_get_nickname : keeps call_get_nickname;
  keeps_get_current_player : keeps call_get_current_player;
  keeps_is_local_player_turn : keeps call_is_local_player_turn;
  keeps_is_game_over : keeps call_is_game_over
}.

(** The collaborators of the first part: each method answers with the value
    the object holds and does nothing else. *)
Definition accessors {config_manager : ConfigManager} : Methods := {|
  call_get_cell := fun i => read (fun h => get_cell (the_board h) i);
  call_is_home_cell := fun cell => ret (is_home_cell cell);
  call_is_reward_cell := fun cell => ret (is_reward_cell cell);
  call_is_penalty_cell := fun cell => ret (is_penalty_cell cell);
  call_get_cell_position := fun p => read (fun h => get_cell_position (the_board h) p);
  call_get_animated_player_position := fun i =>
    read (fun h => get_animated_player_position (the_animation h) i (the_board h));
  call_get_player_type_name := fun player => ret (get_player_type_name player);
  call_get_nickname := ret get_nickname;
  call_get_current_player := read (fun h => get_current_player (the_game_logic h));
  call_is_local_player_turn :=
    read (fun h => match is_local_player_turn (the_game_logic h) with
                   | Some local_turn => local_turn
                   | None => false
                   end);
  call_is_game_over := read (fun h => is_game_over (the_game_logic h))
|}.

Module Live.
Section Live.
Context {constants : Constants} {methods : Methods}.

(** Lines 52-87. *)
Definition draw_cell (i : nat) (p : Point) (_ : unit) : M unit :=
  let '(x, y) := p in
  cell <- call_get_cell (Z.of_nat i) ;;
  home <- call_is_home_cell cell ;;
  color <-
    (if home then lift (getitem HOME_COLORS (owner cell))
     else
       reward <- call_is_reward_cell cell ;;
       if reward then ret REWARD_COLOR
       else
         penalty <- call_is_penalty_cell cell ;;
         if penalty then ret DISCARD_COLOR else ret GRAY) ;;
  paint (DrawRect color (cell_rect (x, y)) 0) ;;
  paint (DrawRect BLACK (cell_rect (x, y)) 2) ;;
  paint (Blit (render (str (Z.of_nat i)) BLACK) (Centered (x, y - 20))) ;;
  home <- call_is_home_cell cell ;;
  type_text <-
    (if home then ret ("H" +:+ str (owner cell + 1))
     else
       reward <- call_is_reward_cell cell ;;
       if reward then ret "奖励"
       else
         penalty <- call_is_penalty_cell cell ;;
         if penalty then ret "丢弃" else ret "普通") ;;
  paint (Blit (render type_text BLACK) (Centered (x, y + 10))).

(** Lines 41-87, on the board of the world. *)
Definition draw_board : M unit :=
  paint (Fill WHITE) ;;
  positions <- read (fun h => cell_positions (the_board h)) ;;
  for_enumerate draw_cell 0%nat positions tt.

(** Lines 99-118. *)
Definition draw_player (i : nat) (player : Player) (_ : unit) : M unit :=
  let i := Z.of_nat i in
  moving <- read (fun h => is_moving (the_animation h) i) ;;
  pos <- (if moving then call_get_animated_player_position i
          else call_get_cell_position (position player)) ;;
  let '(pos_x, pos_y) := pos in
  let offset_x := offset_x i in
  let offset_y := offset_y i in
  moving <- read (fun h => is_moving (the_animation h) i) ;;
  (if moving
   then paint (DrawCircle GOLD (pos_x + offset_x, pos_y + offset_y) 12 2)
   else ret tt) ;;
  paint (DrawCircle (color player) (pos_x + offset_x, pos_y + offset_y) 8 0) ;;
  paint (DrawCircle BLACK (pos_x + offset_x, pos_y + offset_y) 8 2).

(** Lines 89-118, on the player list, the board and the animation manager
    of the world. *)
Definition draw_players : M unit :=
  players <- read the_players ;;
  for_enumerate draw_player 0%nat players tt.

(** Lines 141-146 and 196-201: the name in the brackets of a human player.
    The nickname is asked for in the test only when the test gets that far,
    and once more where it is shown. *)
Definition shown_name (is_network_game : bool) (player : Player) : M string :=
  match name player with
  | Some player_name =>
      if is_network_game then
        nickname <- call_get_nickname ;;
        if negb (String.eqb player_name nickname) then ret player_name
        else call_get_nickname
      else call_get_nickname
  | None => call_get_nickname
  end.

(** Lines 152-166: the marks and the colour of a line, from its text. *)
Definition marked (game_logic : GameLogic) (i : Z) (player : Player) (text : string) : Text :=
  let text := if is_local_player game_logic i player then "[你] " +:+ text else text in
  let text := if i =? current_player game_logic then ">>> " +:+ text +:+ " <<<" else text in
  let color := if negb (i =? current_player game_logic) then BLACK else RED in
  render text color.

(** Lines 133-169. *)
Definition draw_player_line (i : nat) (player : Player) (y_offset : Z) : M Z :=
  player_type <- call_get_player_type_name player ;;
  is_network_game <- read (fun h => hasattr (is_local_player_turn (the_game_logic h))) ;;
  text <-
    (if negb (is_ai player) then
       shown <- shown_name is_network_game player ;;
       ret ("玩家" +:+ str (Z.of_nat i + 1) +:+ "(" +:+ shown +:+ "): "
            +:+ str (money player) +:+ "金币")
     else
       ret (player_type +:+ str (Z.of_nat i + 1) +:+ ": "
            +:+ str (money player) +:+ "金币")) ;;
  game_logic <- read the_game_logic ;;
  paint (Blit (marked game_logic (Z.of_nat i) player text) (TopLeft (10, y_offset))) ;;
  ret (y_offset + 30).

(** Lines 171-217. *)
Definition draw_status (y_offset : Z) : M Player :=
  game_logic <- read the_game_logic ;;
  y_offset <-
    (if dice_result game_logic >? 0 then
       paint (Blit (render ("移动骰子点数: " +:+ str (dice_result game_logic)) BLACK)
                   (TopLeft (10, y_offset + 20))) ;;
       ret (y_offset + 25)
     else ret y_offset) ;;
  (if effect_dice_result game_logic >? 0 then
     paint (Blit (render ("效果骰子点数: " +:+ str (effect_dice_result game_logic)) BLACK)
                 (TopLeft (10, y_offset + 20)))
   else ret tt) ;;
  paint (Blit (render (message game_logic) BLACK) (TopLeft (10, WINDOW_HEIGHT - 80))) ;;
  current_player <- call_get_current_player ;;
  current_player_name <-
    (if negb (is_ai current_player) then
       is_network_game <- read (fun h => hasattr (is_local_player_turn (the_game_logic h))) ;;
       shown <- shown_name is_network_game current_player ;;
       ret ("玩家" +:+ str (id current_player + 1) +:+ "(" +:+ shown +:+ ")")
     else
       player_type <- call_get_player_type_name current_player ;;
       ret (player_type +:+ str (id current_player + 1))) ;;
  waiting <- read (fun h => waiting_for_effect_dice (the_game_logic h)) ;;
  let '(status_text, status_color) :=
    if waiting
    then ("等待 " +:+ current_player_name +:+ " 投掷效果骰子...", GOLD)
    else (current_player_name +:+ " 的回合", BLACK) in
  paint (Blit (render status_text status_color)
              (Centered (WINDOW_WIDTH / 2, WINDOW_HEIGHT - 40))) ;;
  ret current_player.

(** Lines 219-265. *)
Definition draw_button (current_player : Player) : M (option Rect) :=
  is_network_game <- read (fun h => hasattr (is_local_player_turn (the_game_logic h))) ;;
  should_show_button <-
    (if is_network_game then call_is_local_player_turn
     else ret (negb (is_ai current_player))) ;;
  over <- call_is_game_over ;;
  if over then
    let button_rect := mkRect (WINDOW_WIDTH - 150) (WINDOW_HEIGHT - 60) 120 40 in
    paint (DrawRect GREEN button_rect 0) ;;
    paint (DrawRect BLACK button_rect 2) ;;
    paint (Blit (render "重新开始" BLACK) (Centered (center button_rect))) ;;
    ret (Some button_rect)
  else
    waiting <- read (fun h => waiting_for_effect_dice (the_game_logic h)) ;;
    if waiting && should_show_button then
      let button_rect := mkRect (WINDOW_WIDTH - 150) (WINDOW_HEIGHT - 60) 120 40 in
      paint (DrawRect GOLD button_rect 0) ;;
      paint (DrawRect BLACK button_rect 2) ;;
      paint (Blit (render "投骰子" BLACK) (Centered (center button_rect))) ;;
      ret (Some button_rect)
    else if should_show_button then
      let button_rect := mkRect (WINDOW_WIDTH - 150) (WINDOW_HEIGHT - 60) 120 40 in
      paint (DrawRect LIGHT_BLUE button_rect 0) ;;
      paint (DrawRect BLACK button_rect 2) ;;
      paint (Blit (render "投骰子" BLACK) (Centered (center button_rect))) ;;
      ret (Some button_rect)
    else ret None.

(** Lines 120-265, on the game logic of the world. *)
Definition draw_ui : M (option Rect) :=
  players <- read (fun h => players (the_game_logic h)) ;;
  y_offset <- for_enumerate draw_player_line 0%nat players 10 ;;
  current_player <- draw_status y_offset ;;
  draw_button current_player.

End Live.
End Live.

(** * Properties *)

(** ** Drawing code as a writer *)

Lemma drawn_nil w : drawn w [] = w.
Proof. destruct w as [i s]. unfold drawn; simpl. by rewrite app_nil_r. Qed.

Lemma drawn_drawn w ops1 ops2 : drawn (drawn w ops1) ops2 = drawn w (ops1 ++ ops2).
Proof. unfold drawn; simpl. by rewrite app_assoc. Qed.

Lemma emits_ret {A} (a : A) : emits (ret a) [] (inr a).
Proof. intros w. unfold ret. by rewrite drawn_nil. Qed.

Lemma emits_lift {A} (r : Exn + A) : emits (lift r) [] r.
Proof. intros w. unfold lift. by rewrite drawn_nil. Qed.

Lemma emits_paint op : emits (paint op) [op] (inr tt).
Proof. by intros w. Qed.

Lemma emits_bind {A B} (m : M A) (k : A -> M B) ops1 a ops2 r :
  emits m ops1 (inr a) -> emits (k a) ops2 r -> emits (bind m k) (ops1 ++ ops2) r.
Proof.
  intros Hm Hk w. unfold bind. rewrite Hm, Hk. by rewrite drawn_drawn.
Qed.

Lemma emits_bind_exn {A B} (m : M A) (k : A -> M B) ops e :
  emits m ops (inl e) -> emits (bind m k) ops (inl e).
Proof. intros Hm w. unfold bind. by rewrite Hm. Qed.

Lemma emits_paint_then {B} op (k : M B) ops r :
  emits k ops r -> emits (paint op ;; k) (op :: ops) r.
Proof. intros Hk. by apply (emits_bind (paint op) (fun _ => k) [op] tt), Hk. Qed.

Lemma writer_ret {A} (a : A) : writer (ret a).
Proof. eexists _, _. apply emits_ret. Qed.

Lemma writer_lift {A} (r : Exn + A) : writer (lift r).
Proof. eexists _, _. apply emits_lift. Qed.

Lemma writer_paint op : writer (paint op).
Proof. eexists _, _. apply emits_paint. Qed.

Lemma writer_bind {A B} (m : M A) (k : A -> M B) :
  writer m -> (forall a, writer (k a)) -> writer (bind m k).
Proof.
  intros (ops & [e | a] & Hm) Hk.
  - eexists _, _. by apply emits_bind_exn.
  - destruct (Hk a) as (ops' & r & Hka). eexists _, _. by eapply emits_bind.
Qed.

Lemma writer_for_enumerate {A St} (body : nat -> A -> St -> M St) l :
  (forall i x s, writer (body i x s)) ->
  forall i s, writer (for_enumerate body i l s).
Proof.
  intros Hbody. induction l as [| x l IH]; intros i s; simpl.
  - apply writer_ret.
  - apply writer_bind; [apply Hbody | intros s'; apply IH].
Qed.

Lemma writer_frame {A} (m : M A) w :
  writer m ->
  inputs (m w).1 = inputs w /\ exists ops, screen (m w).1 = screen w ++ ops.
Proof.
  intros (ops & r & Hm). specialize (Hm w). destruct (m w) as [w' r'].
  injection Hm as -> _. simpl. split; [done | by exists ops].
Qed.

Create HintDb writer.
#[local] Hint Resolve writer_ret writer_lift writer_paint : writer.

(** ** Python subscription *)

Lemma getitem_valid {A} (l : list A) k :
  valid_index l k -> exists a, getitem l k = inr a /\ a ∈ l.
Proof.
  unfold valid_index, getitem. intros Hk.
  set (k' := if k <? 0 then k + Z.of_nat (length l) else k).
  assert (0 <= k' < Z.of_nat (length l)) as Hk'.
  { subst k'. destruct (Z.ltb_spec k 0); lia. }
  destruct (Z.ltb_spec k' 0) as [? | _]; [lia |].
  destruct (lookup_lt_is_Some_2 l (Z.to_nat k')) as [a Ha]; [lia |].
  rewrite Ha. exists a. split; [done |]. by eapply list_elem_of_lookup_2.
Qed.

Lemma getitem_invalid {A} (l : list A) k :
  ~ valid_index l k -> getitem l k = inl IndexError.
Proof.
  unfold valid_index, getitem. intros Hk.
  set (k' := if k <? 0 then k + Z.of_nat (length l) else k).
  destruct (Z.ltb_spec k' 0) as [? | Hpos]; [done |].
  assert (Z.of_nat (length l) <= k') as Hk'.
  { subst k'. destruct (Z.ltb_spec k 0); lia. }
  rewrite lookup_ge_None_2; [done | lia].
Qed.

Section Properties.
Context {constants : Constants} {config_manager : ConfigManager}.

(** ** draw_board *)

Lemma select_fill_color_plain cell :
  is_home_cell cell = false -> is_reward_cell cell = false ->
  is_penalty_cell cell = false -> select_fill_color cell = inr GRAY.
Proof. unfold select_fill_color. by intros -> -> ->. Qed.

Lemma select_fill_color_well_owned cell :
  well_owned cell -> exists c, select_fill_color cell = inr c.
Proof.
  unfold well_owned, select_fill_color. intros Hown.
  destruct (is_home_cell cell).
  - destruct (getitem_valid HOME_COLORS (owner cell)) as (c & -> & _); eauto.
  - destruct (is_reward_cell cell), (is_penalty_cell cell); eauto.
Qed.

(** What one round of the loop draws for cell [i] at [p] once its colour is known. *)
Lemma draw_cell_emits board i p c :
  select_fill_color (get_cell board (Z.of_nat i)) = inr c ->
  emits (draw_cell board i p tt)
    [ DrawRect c (cell_rect p) 0;
      DrawRect BLACK (cell_rect p) 2;
      Blit (render (str (Z.of_nat i)) BLACK) (Centered (p.1, p.2 - 20));
      Blit (render (type_text (get_cell board (Z.of_nat i))) BLACK)
           (Centered (p.1, p.2 + 10)) ]
    (inr tt).
Proof.
  intros Hc. destruct p as [x y]. unfold draw_cell. simpl.
  eapply (emits_bind _ _ []); [rewrite Hc; apply emits_lift |].
  do 3 apply emits_paint_then. apply emits_paint.
Qed.

Lemma draw_cell_raises board i p e :
  select_fill_color (get_cell board (Z.of_nat i)) = inl e ->
  emits (draw_cell board i p tt) [] (inl e).
Proof.
  intros He. destruct p as [x y]. unfold draw_cell.
  apply emits_bind_exn. rewrite He. apply emits_lift.
Qed.

Lemma cell_rect_center p : center (cell_rect p) = p.
Proof.
  destruct p as [x y]. unfold center, cell_rect; simpl. f_equal; lia.
Qed.

(** The loop from index [i] on, over cells that are all well owned. *)
Lemma draw_cells_emits board l : forall i,
  (forall j p, l !! j = Some p -> well_owned (get_cell board (Z.of_nat (i + j)))) ->
  exists renders : list (list DrawOp),
    emits (for_enumerate (draw_cell board) i l tt) (concat renders) (inr tt) /\
    length renders = length l /\
    forall j p, l !! j = Some p ->
      exists c, select_fill_color (get_cell board (Z.of_nat (i + j))) = inr c /\
        renders !! j = Some
          [ DrawRect c (cell_rect p) 0;
            DrawRect BLACK (cell_rect p) 2;
            Blit (render (str (Z.of_nat (i + j))) BLACK) (Centered (p.1, p.2 - 20));
            Blit (render (type_text (get_cell board (Z.of_nat (i + j)))) BLACK)
                 (Centered (p.1, p.2 + 10)) ].
Proof.
  induction l as [| p l IH]; intros i Hown.
  - exists []. split; [apply emits_ret |]. split; [done |]. intros j q Hq. done.
  - destruct (select_fill_color_well_owned (get_cell board (Z.of_nat i))) as [c Hc].
    { specialize (Hown 0%nat p eq_refl). by rewrite Nat.add_0_r in Hown. }
    destruct (IH (S i)) as (renders & Hloop & Hlen & Hnth).
    { intros j q Hq. specialize (Hown (S j) q Hq).
      by replace (S i + j)%nat with (i + S j)%nat by lia. }
    eexists (_ :: renders). split; [| split].
    + simpl. eapply emits_bind; [by apply draw_cell_emits | apply Hloop].
    + simpl. by rewrite Hlen.
    + intros [| j] q Hq; simpl in Hq.
      * injection Hq as <-. exists c. rewrite Nat.add_0_r. done.
      * destruct (Hnth j q Hq) as (c' & Hc' & Hr). exists c'.
        replace (i + S j)%nat with (S i + j)%nat by lia. done.
Qed.

(** C6 (amended).  The fill colour of a cell is a function of its role alone
    (the three predicates and the owner).  On every cell that is not a home
    cell, and on every home cell whose owner has an entry in [HOME_COLORS],
    it returns exactly one colour: the owner's entry for a home cell, else
    the reward colour, else the penalty colour, else the neutral colour.  A
    cell matching none of the three predicates gets the neutral colour and
    no error. *)
Theorem select_fill_color_by_role cell :
  (well_owned cell ->
   exists c, select_fill_color cell = inr c /\
     (is_home_cell cell = true /\ getitem HOME_COLORS (owner cell) = inr c /\ c ∈ HOME_COLORS
      \/ is_home_cell cell = false /\ is_reward_cell cell = true /\ c = REWARD_COLOR
      \/ is_home_cell cell = false /\ is_reward_cell cell = false /\
         is_penalty_cell cell = true /\ c = DISCARD_COLOR
      \/ is_home_cell cell = false /\ is_reward_cell cell = false /\
         is_penalty_cell cell = false /\ c = GRAY)) /\
  (is_home_cell cell = false -> is_reward_cell cell = false ->
   is_penalty_cell cell = false -> select_fill_color cell = inr GRAY) /\
  (forall cell', is_home_cell cell' = is_home_cell cell ->
     is_reward_cell cell' = is_reward_cell cell ->
     is_penalty_cell cell' = is_penalty_cell cell ->
     owner cell' = owner cell ->
     select_fill_color cell' = select_fill_color cell).
Proof.
  split; [| split].
  - unfold well_owned, select_fill_color. intros Hown.
    destruct (is_home_cell cell) eqn:Hhome.
    + destruct (getitem_valid HOME_COLORS (owner cell)) as (c & Hc & Hin); [auto |].
      exists c. rewrite Hc. split; [done |]. left. done.
    + destruct (is_reward_cell cell) eqn:Hreward; [eexists; split; [done |]; right; left; done |].
      destruct (is_penalty_cell cell) eqn:Hpenalty; eexists; (split; [done |]); right; right;
        [left | right]; done.
  - apply select_fill_color_plain.
  - intros cell' Hh Hr Hp Ho. unfold select_fill_color. by rewrite Hh, Hr, Hp, Ho.
Qed.

(** A home cell whose owner has no entry in [HOME_COLORS] gets no colour:
    the subscription raises. *)
Lemma select_fill_color_stray cell :
  is_home_cell cell = true -> ~ valid_index HOME_COLORS (owner cell) ->
  select_fill_color cell = inl IndexError.
Proof. unfold select_fill_color. intros -> Hk. by apply getitem_invalid. Qed.

(** C7 (amended).  A board without cells only has its background cleared.
    On a board of N cell positions whose home cells all have an owner with
    an entry in [HOME_COLORS], [draw_board] clears the background and then
    renders exactly N cells, in board order, cell [i] as a filled square,
    its outline, its number and its type label, the square centred at the
    position the board declares for [i]. *)
Theorem draw_board_renders_every_cell board w :
  (cell_positions board = [] -> draw_board board w = (drawn w [Fill WHITE], inr tt)) /\
  ((forall i p, cell_positions board !! i = Some p ->
      well_owned (get_cell board (Z.of_nat i))) ->
   exists renders : list (list DrawOp),
     draw_board board w = (drawn w (Fill WHITE :: concat renders), inr tt) /\
     length renders = length (cell_positions board) /\
     forall i p, cell_positions board !! i = Some p ->
       center (cell_rect p) = p /\
       exists c, select_fill_color (get_cell board (Z.of_nat i)) = inr c /\
         renders !! i = Some
           [ DrawRect c (cell_rect p) 0;
             DrawRect BLACK (cell_rect p) 2;
             Blit (render (str (Z.of_nat i)) BLACK) (Centered (p.1, p.2 - 20));
             Blit (render (type_text (get_cell board (Z.of_nat i))) BLACK)
                  (Centered (p.1, p.2 + 10)) ]).
Proof.
  split.
  - intros Hnil. unfold draw_board. rewrite Hnil. simpl.
    apply (emits_paint_then _ _ []), emits_ret.
  - intros Hown.
    destruct (draw_cells_emits board (cell_positions board) 0%nat Hown)
      as (renders & Hloop & Hlen & Hnth).
    exists renders. split; [| split; [done |]].
    + unfold draw_board. by apply emits_paint_then.
    + intros i p Hp. split; [apply cell_rect_center |]. by apply Hnth.
Qed.

(** ** draw_players *)

Lemma draw_player_emits board am i player :
  emits (draw_player board am i player tt)
    (token (is_moving am (Z.of_nat i)) (color player)
           (token_center am board (Z.of_nat i) player))
    (inr tt).
Proof.
  unfold draw_player, token, token_center.
  destruct (player_screen_position am board (Z.of_nat i) player) as [pos_x pos_y].
  simpl. eapply emits_bind.
  - destruct (is_moving am (Z.of_nat i)); [apply emits_paint | apply emits_ret].
  - apply emits_paint_then, emits_paint.
Qed.

(** The loop from index [i] on. *)
Lemma draw_players_from board am l : forall i,
  emits (for_enumerate (draw_player board am) i l tt)
    (concat (imap (fun j player =>
       token (is_moving am (Z.of_nat (i + j))) (color player)
             (token_center am board (Z.of_nat (i + j)) player)) l))
    (inr tt).
Proof.
  induction l as [| player l IH]; intros i; simpl.
  - apply emits_ret.
  - rewrite Nat.add_0_r. eapply emits_bind; [apply draw_player_emits |].
    erewrite imap_ext; [apply (IH (S i)) |].
    intros j q _. simpl. by replace (i + S j)%nat with (S (i + j)) by lia.
Qed.

(** C2.  [draw_players] draws the tokens in list order, the token of the
    player at index [i] around that player's position on screen.  While
    [player_moving] is set, the player whose index is [moving_player_id]
    takes its position from the animation and every other player from the
    board cell it stands on; while it is not set, all players do. *)
Theorem draw_players_positions players board am w :
  draw_players players board am w =
    (drawn w (concat (imap (fun i player =>
       let pos := player_screen_position am board (Z.of_nat i) player in
       token (is_moving am (Z.of_nat i)) (color player)
             (pos.1 + offset_x (Z.of_nat i), pos.2 + offset_y (Z.of_nat i))) players)),
     inr tt) /\
  forall (i : nat) player, players !! i = Some player ->
    (player_moving am = true -> moving_player_id am = Z.of_nat i ->
     player_screen_position am board (Z.of_nat i) player
       = get_animated_player_position am (Z.of_nat i) board) /\
    (player_moving am = true -> moving_player_id am <> Z.of_nat i ->
     player_screen_position am board (Z.of_nat i) player
       = get_cell_position board (position player)) /\
    (player_moving am = false ->
     player_screen_position am board (Z.of_nat i) player
       = get_cell_position board (position player)).
Proof.
  split.
  - apply (draw_players_from board am players 0).
  - intros i player _. unfold player_screen_position, is_moving.
    split; [| split].
    + intros -> ->. by rewrite Z.eqb_refl.
    + intros -> Hne. simpl. by destruct (Z.eqb_spec (moving_player_id am) (Z.of_nat i)).
    + by intros ->.
Qed.

Lemma offsets_inj (i j : Z) :
  0 <= i -> 0 <= j -> offset_x i = offset_x j -> offset_y i = offset_y j -> i = j.
Proof.
  unfold offset_x, offset_y. intros Hi Hj Hx Hy.
  rewrite (Z.div_mod i 2), (Z.div_mod j 2) by lia. lia.
Qed.

(** C8.  The offset of a token depends on the player's list index alone,
    and two indices that differ in [i % 2] or in [i // 2] get different
    offsets; two such players standing at one position are drawn around
    different centres. *)
Theorem player_offsets_differ (i j : nat) :
  i <> j ->
  Z.of_nat i mod 2 <> Z.of_nat j mod 2 \/ Z.of_nat i / 2 <> Z.of_nat j / 2 ->
  (offset_x (Z.of_nat i), offset_y (Z.of_nat i))
    <> (offset_x (Z.of_nat j), offset_y (Z.of_nat j)) /\
  forall am board p q,
    player_screen_position am board (Z.of_nat i) p
      = player_screen_position am board (Z.of_nat j) q ->
    token_center am board (Z.of_nat i) p <> token_center am board (Z.of_nat j) q.
Proof.
  intros _ Hdiff.
  assert (offset_x (Z.of_nat i) = offset_x (Z.of_nat j) ->
          offset_y (Z.of_nat i) = offset_y (Z.of_nat j) -> False) as Hoff.
  { unfold offset_x, offset_y. intros Hx Hy. destruct Hdiff as [Hm | Hd]; lia. }
  split.
  - intros E. injection E as Hx Hy. auto.
  - intros am board p q Hpos E. unfold token_center in E. rewrite Hpos in E.
    injection E as Hx Hy. apply Hoff; lia.
Qed.

(** ** draw_ui *)

Ltac run_emits :=
  repeat match goal with
         | |- emits (ret _) _ _ => apply emits_ret
         | |- emits (paint _) _ _ => apply emits_paint
         | |- emits (lift _) _ _ => apply emits_lift
         | |- emits (bind _ _) _ _ => eapply emits_bind
         end.

(** The loop over the players from index [i] on, entered with [y_offset = y]. *)
Lemma draw_player_lines_from gl l : forall i y,
  emits (for_enumerate (draw_player_line gl) i l y)
    (imap (fun j player =>
       Blit (player_line gl (Z.of_nat (i + j)) player)
            (TopLeft (10, y + 30 * Z.of_nat j))) l)
    (inr (y + 30 * Z.of_nat (length l))).
Proof.
  induction l as [| player l IH]; intros i y; cbn [for_enumerate length].
  - change (Z.of_nat 0) with 0. rewrite Z.mul_0_r, Z.add_0_r. apply emits_ret.
  - rewrite imap_cons, Nat.add_0_r.
    change (Z.of_nat 0) with 0. rewrite Z.mul_0_r, Z.add_0_r.
    replace (y + 30 * Z.of_nat (S (length l)))
      with (y + 30 + 30 * Z.of_nat (length l)) by lia.
    eapply (emits_bind _ _ [_]).
    { unfold draw_player_line. apply emits_paint_then, emits_ret. }
    erewrite imap_ext; [apply (IH (S i) (y + 30)) |].
    intros j q _. unfold compose.
    replace (i + S j)%nat with (S i + j)%nat by lia. do 3 f_equal. lia.
Qed.

Lemma draw_status_emits gl y : exists ops, emits (draw_status gl y) ops (inr tt).
Proof.
  unfold draw_status.
  destruct (dice_result gl >? 0), (effect_dice_result gl >? 0),
    (waiting_for_effect_dice gl); eexists; run_emits.
Qed.

(** The panel: one line per player, top down, then the rest; it never raises. *)
Lemma draw_panel_emits gl :
  exists rest,
    emits (draw_panel gl)
      (imap (fun i player =>
         Blit (player_line gl (Z.of_nat i) player)
              (TopLeft (10, 10 + 30 * Z.of_nat i))) (players gl) ++ rest)
      (inr tt).
Proof.
  destruct (draw_status_emits gl (10 + 30 * Z.of_nat (length (players gl)))) as [rest Hrest].
  exists rest. unfold draw_panel.
  eapply emits_bind; [apply (draw_player_lines_from gl (players gl) 0 10) | apply Hrest].
Qed.

Lemma draw_ui_after_panel gl w : draw_ui gl w = draw_button gl (draw_panel gl w).1.
Proof.
  destruct (draw_panel_emits gl) as [rest Hpanel].
  unfold draw_ui, bind. by rewrite Hpanel.
Qed.

Lemma draw_button_over gl :
  is_game_over gl = true ->
  emits (draw_button gl) (button GREEN "重新开始") (inr (Some button_rect)).
Proof.
  intros Hover. unfold draw_button. rewrite Hover.
  do 3 apply emits_paint_then. apply emits_ret.
Qed.

Lemma draw_button_effect gl :
  is_game_over gl = false -> waiting_for_effect_dice gl = true ->
  should_show_button gl = true ->
  emits (draw_button gl) (button GOLD "投骰子") (inr (Some button_rect)).
Proof.
  intros Hover Hwait Hshow. unfold draw_button. rewrite Hover, Hwait, Hshow.
  do 3 apply emits_paint_then. apply emits_ret.
Qed.

Lemma draw_button_roll gl :
  is_game_over gl = false -> waiting_for_effect_dice gl = false ->
  should_show_button gl = true ->
  emits (draw_button gl) (button LIGHT_BLUE "投骰子") (inr (Some button_rect)).
Proof.
  intros Hover Hwait Hshow. unfold draw_button. rewrite Hover, Hwait, Hshow.
  do 3 apply emits_paint_then. apply emits_ret.
Qed.

Lemma draw_button_none gl :
  is_game_over gl = false -> should_show_button gl = false ->
  emits (draw_button gl) [] (inr None).
Proof.
  intros Hover Hshow. unfold draw_button. rewrite Hover, Hshow, andb_false_r.
  apply emits_ret.
Qed.

(** C1.  The button is chosen by strict priority.  When the game is over
    [draw_ui] draws the Restart button and returns its region, whatever
    [waiting_for_effect_dice] and the authorization are.  Otherwise, when the
    game waits for the effect die and the viewer is authorized (network
    game: [is_local_player_turn()]; else: the current player is not an AI),
    it draws the Effect-Die button and returns its region.  Otherwise, when
    the viewer is authorized, it draws the Roll-Die button and returns its
    region.  Otherwise it draws no button and returns [None]. *)
Theorem draw_ui_button_priority gl w :
  let authorized :=
    match is_local_player_turn gl with
    | Some local_turn => local_turn
    | None => negb (is_ai (get_current_player gl))
    end in
  let panel := (draw_panel gl w).1 in
  (is_game_over gl = true ->
   draw_ui gl w = (drawn panel (button GREEN "重新开始"), inr (Some button_rect))) /\
  (is_game_over gl = false -> waiting_for_effect_dice gl = true -> authorized = true ->
   draw_ui gl w = (drawn panel (button GOLD "投骰子"), inr (Some button_rect))) /\
  (is_game_over gl = false -> waiting_for_effect_dice gl = false -> authorized = true ->
   draw_ui gl w = (drawn panel (button LIGHT_BLUE "投骰子"), inr (Some button_rect))) /\
  (is_game_over gl = false -> authorized = false ->
   draw_ui gl w = (panel, inr None)).
Proof.
  intros authorized panel. rewrite draw_ui_after_panel. fold panel.
  repeat split.
  - intros Hover. by apply draw_button_over.
  - intros Hover Hwait Hauth. by apply draw_button_effect.
  - intros Hover Hwait Hauth. by apply draw_button_roll.
  - intros Hover Hauth. rewrite (draw_button_none gl Hover Hauth). by rewrite drawn_nil.
Qed.

(** C5.  In a game on one machine that is neither over nor waiting for the
    effect die, [draw_ui] draws no button and returns [None] while the
    current player is an AI. *)
Theorem draw_ui_no_button_on_ai_turn gl w :
  is_game_over gl = false ->
  waiting_for_effect_dice gl = false ->
  is_local_player_turn gl = None ->
  is_ai (get_current_player gl) = true ->
  draw_ui gl w = ((draw_panel gl w).1, inr None).
Proof.
  intros Hover _ Hlocal Hai. rewrite draw_ui_after_panel.
  rewrite (draw_button_none gl Hover); [by rewrite drawn_nil |].
  unfold should_show_button. by rewrite Hlocal, Hai.
Qed.

(** C10.  Whenever [draw_ui] returns a region, it is the rectangle at
    [(WINDOW_WIDTH - 150, WINDOW_HEIGHT - 60)] of size [120 x 40]; what was
    drawn on it is one of three buttons that differ in fill colour and
    label only. *)
Theorem draw_ui_button_region gl w r :
  (draw_ui gl w).2 = inr (Some r) ->
  r = mkRect (WINDOW_WIDTH - 150) (WINDOW_HEIGHT - 60) 120 40 /\
  exists fill label,
    (fill, label) ∈ [(GREEN, "重新开始"); (GOLD, "投骰子"); (LIGHT_BLUE, "投骰子")] /\
    (draw_ui gl w).1 =
      drawn (draw_panel gl w).1
        [ DrawRect fill r 0;
          DrawRect BLACK r 2;
          Blit (render label BLACK) (Centered (center r)) ].
Proof.
  rewrite draw_ui_after_panel. set (panel := (draw_panel gl w).1).
  destruct (is_game_over gl) eqn:Hover.
  - rewrite !(draw_button_over gl Hover panel). simpl. intros [= <-].
    split; [done |]. exists GREEN, "重新开始". split; [repeat constructor | done].
  - destruct (should_show_button gl) eqn:Hshow.
    + destruct (waiting_for_effect_dice gl) eqn:Hwait.
      * rewrite !(draw_button_effect gl Hover Hwait Hshow panel). simpl. intros [= <-].
        split; [done |]. exists GOLD, "投骰子". split; [repeat constructor | done].
      * rewrite !(draw_button_roll gl Hover Hwait Hshow panel). simpl. intros [= <-].
        split; [done |]. exists LIGHT_BLUE, "投骰子". split; [repeat constructor | done].
    + rewrite (draw_button_none gl Hover Hshow panel). simpl. intros [=].
Qed.

Lemma draw_button_emits gl : exists ops r, emits (draw_button gl) ops r.
Proof.
  destruct (is_game_over gl) eqn:Hover.
  { eexists _, _. by apply draw_button_over. }
  destruct (should_show_button gl) eqn:Hshow.
  - destruct (waiting_for_effect_dice gl) eqn:Hwait; eexists _, _.
    + by apply draw_button_effect.
    + by apply draw_button_roll.
  - eexists _, _. by apply draw_button_none.
Qed.

(** The [i]-th drawing call of [draw_ui] is the line of the [i]-th player. *)
Lemma draw_ui_player_line gl w (i : nat) player :
  players gl !! i = Some player ->
  screen (draw_ui gl w).1 !! (length (screen w) + i)%nat
    = Some (Blit (player_line gl (Z.of_nat i) player)
                 (TopLeft (10, 10 + 30 * Z.of_nat i))).
Proof.
  intros Hi. rewrite draw_ui_after_panel.
  destruct (draw_panel_emits gl) as [rest Hpanel].
  destruct (draw_button_emits gl) as (ops & r & Hbutton).
  rewrite (Hpanel w), (Hbutton _). simpl.
  rewrite <- !app_assoc, lookup_app_r by lia.
  replace (length (screen w) + i - length (screen w))%nat with i by lia.
  rewrite lookup_app_l.
  - by rewrite list_lookup_imap, Hi.
  - rewrite length_imap. by eapply lookup_lt_Some.
Qed.

Lemma append_empty_r (s : string) : s +:+ "" = s.
Proof.
  induction s as [| a s IH]; [done |].
  change (String a (s +:+ "") = String a s). by f_equal.
Qed.

(** The marks of lines 160-164 go around the text of lines 133-149. *)
Lemma player_line_text gl i player :
  exists before after,
    text_of (player_line gl i player) = before +:+ (player_text gl i player +:+ after).
Proof.
  unfold player_line. simpl.
  destruct (is_local_player gl i player), (i =? current_player gl).
  - by exists ">>> [你] ", " <<<".
  - exists "[你] ", "". simpl. by rewrite append_empty_r.
  - by exists ">>> ", " <<<".
  - exists "", "". simpl. by rewrite append_empty_r.
Qed.

(** C4.  In a network game the line of a human player shows the player's
    stored name only when that name differs from the nickname configured on
    this machine; a player whose stored name equals the nickname, remote or
    not, is shown under the configured nickname. *)
Theorem networked_human_label gl (i : nat) player local_turn :
  is_local_player_turn gl = Some local_turn ->
  is_ai player = false ->
  let label who :=
    "玩家" +:+ str (Z.of_nat i + 1) +:+ "(" +:+ who +:+ "): "
    +:+ str (money player) +:+ "金币" in
  (forall stored, name player = Some stored -> stored <> get_nickname ->
     player_text gl (Z.of_nat i) player = label stored) /\
  (name player = Some get_nickname \/ name player = None ->
     player_text gl (Z.of_nat i) player = label get_nickname) /\
  (exists before after,
     text_of (player_line gl (Z.of_nat i) player)
       = before +:+ (player_text gl (Z.of_nat i) player +:+ after)) /\
  (forall w, players gl !! i = Some player ->
     screen (draw_ui gl w).1 !! (length (screen w) + i)%nat
       = Some (Blit (player_line gl (Z.of_nat i) player)
                    (TopLeft (10, 10 + 30 * Z.of_nat i)))).
Proof.
  intros Hnet Hhuman label.
  split; [| split; [| split]].
  - intros stored Hname Hne. apply String.eqb_neq in Hne.
    unfold player_text. by rewrite Hnet, Hhuman, Hname, Hne.
  - unfold player_text. rewrite Hnet, Hhuman.
    intros [-> | ->]; [by rewrite String.eqb_refl | done].
  - apply player_line_text.
  - intros w. apply draw_ui_player_line.
Qed.


End Properties.

(** C6, on the home cell of the third player. *)
Lemma select_fill_color_by_role_witness :
  @well_owned Sample.constants (Sample.home 2) /\
  exists c, @select_fill_color Sample.constants (Sample.home 2) = inr c /\
            c ∈ @HOME_COLORS Sample.constants.
Proof.
  assert (@well_owned Sample.constants (Sample.home 2)) as Hown.
  { intros _. unfold valid_index. simpl. lia. }
  split; [exact Hown |].
  destruct (proj1 (@select_fill_color_by_role Sample.constants (Sample.home 2)) Hown)
    as (c & Hc & [(_ & _ & Hin) | [(Hhome & _) | [(Hhome & _) | (Hhome & _)]]]);
    try discriminate Hhome.
  exists c. split; [exact Hc | exact Hin].
Defined.

(** C6 as stated fails: with four home colours, the home cell of a fifth
    player makes the selection raise instead of returning a colour. *)
Lemma select_fill_color_not_total :
  Sample.home 4 = {| is_home_cell := true; is_reward_cell := false;
                     is_penalty_cell := false; owner := 4 |} /\
  @select_fill_color Sample.constants (Sample.home 4) = inl IndexError /\
  ~ exists c, @select_fill_color Sample.constants (Sample.home 4) = inr c.
Proof.
  split; [reflexivity |]. split; [reflexivity |]. intros [c Hc]. discriminate Hc.
Qed.

(** Whatever the table of home colours, some home cell is beyond it. *)
Lemma select_fill_color_never_total (constants : Constants) :
  exists cell, select_fill_color cell = inl IndexError.
Proof.
  exists (Sample.home (Z.of_nat (length HOME_COLORS))).
  apply select_fill_color_stray; [done |]. unfold valid_index; simpl. lia.
Qed.

(** Whatever the table of home colours, some board of one cell makes
    [draw_board] raise before it has rendered a cell. *)
Lemma draw_board_never_total (constants : Constants) w :
  exists board,
    length (cell_positions board) = 1%nat /\
    draw_board board w = (drawn w [Fill WHITE], inl IndexError).
Proof.
  exists {| cell_positions := [(0, 0)];
            get_cell := fun _ => Sample.home (Z.of_nat (length HOME_COLORS));
            get_cell_position := fun _ => (0, 0) |}.
  split; [done |]. unfold draw_board. cbn [for_enumerate cell_positions].
  apply (emits_paint_then _ _ []), emits_bind_exn, draw_cell_raises.
  apply select_fill_color_stray; [done |]. unfold valid_index; simpl. lia.
Qed.

(** ** The renderer on the sample game *)

Section Examples.
#[local] Existing Instance Sample.constants.
#[local] Existing Instance Sample.config_manager.
Import Sample.

(** C1 on four states of a game on one machine: over while waiting for the
    effect die (Restart), waiting on a human's turn (Effect Die), a human's
    turn (Roll Die), an AI's turn (no button). *)
Lemma draw_ui_button_priority_witness :
  let seats := [human 0 "Ann"; robot 1] in
  let over := local_game seats 1 (robot 1) true true in
  let effect := local_game seats 0 (human 0 "Ann") true false in
  let roll := local_game seats 0 (human 0 "Ann") false false in
  let idle := local_game seats 1 (robot 1) true false in
  draw_ui over world
    = (drawn (draw_panel over world).1 (button GREEN "重新开始"), inr (Some button_rect)) /\
  draw_ui effect world
    = (drawn (draw_panel effect world).1 (button GOLD "投骰子"), inr (Some button_rect)) /\
  draw_ui roll world
    = (drawn (draw_panel roll world).1 (button LIGHT_BLUE "投骰子"), inr (Some button_rect)) /\
  draw_ui idle world = ((draw_panel idle world).1, inr None).
Proof.
  intros seats over effect roll idle.
  destruct (draw_ui_button_priority over world) as (Hover & _).
  destruct (draw_ui_button_priority effect world) as (_ & Heffect & _).
  destruct (draw_ui_button_priority roll world) as (_ & _ & Hroll & _).
  destruct (draw_ui_button_priority idle world) as (_ & _ & _ & Hidle).
  split; [exact (Hover eq_refl) |].
  split; [exact (Heffect eq_refl eq_refl eq_refl) |].
  split; [exact (Hroll eq_refl eq_refl eq_refl) |].
  exact (Hidle eq_refl eq_refl).
Defined.

(** C2: while player 1 is moving, its token follows the animation and the
    token of player 0 stays on its cell; when nobody moves, so does player 1. *)
Lemma draw_players_positions_witness :
  let seats := [human 0 "Ann"; robot 1] in
  player_screen_position animation board 1 (robot 1) = (250, 100) /\
  player_screen_position animation board 0 (human 0 "Ann") = (300, 100) /\
  player_screen_position still board 1 (robot 1) = (300, 100).
Proof.
  intros seats.
  destruct (draw_players_positions seats board animation world) as [_ Hmoving].
  destruct (draw_players_positions seats board still world) as [_ Hstill].
  destruct (Hmoving 1%nat (robot 1) eq_refl) as (Hanimated & _ & _).
  destruct (Hmoving 0%nat (human 0 "Ann") eq_refl) as (_ & Hother & _).
  destruct (Hstill 1%nat (robot 1) eq_refl) as (_ & _ & Hstatic).
  split; [exact (Hanimated eq_refl eq_refl) |].
  split; [| exact (Hstatic eq_refl)].
  apply (Hother eq_refl). discriminate.
Defined.

(** Past the single-player game the branch of line 157 is written for: with
    two people on one machine every player that is not an AI is marked, the
    one at index 1 as well as the one at index 0. *)
Lemma draw_ui_marks_second_human :
  is_local_player_turn hotseat_game = None /\
  players hotseat_game = [human 0 "Ann"; human 1 "Bea"] /\
  is_ai (human 0 "Ann") = false /\
  is_local_player hotseat_game 1 (human 1 "Bea") = true /\
  screen (draw_ui hotseat_game world).1 !! 1%nat
    = Some (Blit (render "[你] 玩家2(Ann): 100金币" BLACK) (TopLeft (10, 40))).
Proof. repeat split; vm_compute; reflexivity. Qed.

(** C4 on the network game of Ann (slot 0, this machine) and a second
    person at slot 1: stored as Bob, the line shows Bob; stored as Ann, the
    line shows the nickname configured here. *)
Lemma networked_human_label_witness :
  player_text (network_game [human 0 "Ann"; human 1 "Bob"]) 1 (human 1 "Bob")
    = "玩家2(Bob): 100金币" /\
  player_text (network_game [human 0 "Ann"; human 1 "Ann"]) 1 (human 1 "Ann")
    = "玩家2(Ann): 100金币".
Proof.
  destruct (networked_human_label (network_game [human 0 "Ann"; human 1 "Bob"])
              1 (human 1 "Bob") true eq_refl eq_refl) as (Hremote & _).
  destruct (networked_human_label (network_game [human 0 "Ann"; human 1 "Ann"])
              1 (human 1 "Ann") true eq_refl eq_refl) as (_ & Hsame & _).
  split.
  - apply (Hremote "Bob" eq_refl). discriminate.
  - apply Hsame. left. reflexivity.
Defined.

(** C5 on the turn of the AI at seat 1. *)
Lemma draw_ui_no_button_on_ai_turn_witness :
  let gl := local_game [human 0 "Ann"; robot 1] 1 (robot 1) false false in
  draw_ui gl world = ((draw_panel gl world).1, inr None).
Proof.
  intros gl.
  exact (draw_ui_no_button_on_ai_turn gl world eq_refl eq_refl eq_refl eq_refl).
Defined.

(** C7 on the board of three cells. *)
Lemma draw_board_renders_every_cell_witness :
  (forall i p, cell_positions board !! i = Some p ->
     well_owned (get_cell board (Z.of_nat i))) /\
  exists renders : list (list DrawOp),
    draw_board board world = (drawn world (Fill WHITE :: concat renders), inr tt) /\
    length renders = 3%nat.
Proof.
  assert (forall i p, cell_positions board !! i = Some p ->
            well_owned (get_cell board (Z.of_nat i))) as Hown.
  { intros [| [| [| i]]] p Hp Hhome; try discriminate.
    unfold valid_index. simpl. lia. }
  split; [exact Hown |].
  destruct (draw_board_renders_every_cell board world) as [_ Hall].
  destruct (Hall Hown) as (renders & Hdraw & Hlen & _).
  exists renders. split; [exact Hdraw | exact Hlen].
Defined.

(** C7 as stated fails: on a board of two cells whose second cell is the
    home of a player without home colour, [draw_board] renders one cell and
    raises. *)
Lemma draw_board_stops_at_stray_cell :
  length (cell_positions stray_board) = 2%nat /\
  draw_board stray_board world =
    (drawn world
       [ Fill WHITE;
         DrawRect GRAY (cell_rect (100, 100)) 0;
         DrawRect BLACK (cell_rect (100, 100)) 2;
         Blit (render "0" BLACK) (Centered (100, 80));
         Blit (render "普通" BLACK) (Centered (100, 110)) ],
     inl IndexError).
Proof. split; vm_compute; reflexivity. Qed.

(** C8 on the first two players. *)
Lemma player_offsets_differ_witness :
  (offset_x 0, offset_y 0) <> (offset_x 1, offset_y 1).
Proof.
  apply (player_offsets_differ 0 1); [discriminate |].
  left. vm_compute. discriminate.
Defined.

(** C10 on a game that is over. *)
Lemma draw_ui_button_region_witness :
  let gl := local_game [human 0 "Ann"; robot 1] 1 (robot 1) true true in
  (draw_ui gl world).2 = inr (Some button_rect) /\
  button_rect = mkRect (WINDOW_WIDTH - 150) (WINDOW_HEIGHT - 60) 120 40.
Proof.
  intros gl.
  assert ((draw_ui gl world).2 = inr (Some button_rect)) as Hr by reflexivity.
  split; [exact Hr |].
  exact (proj1 (draw_ui_button_region gl world button_rect Hr)).
Defined.

End Examples.

(** * Further properties of the renderer *)

(** ** init_fonts *)

Section FontProperties.
Context {pygame_font : PygameFont}.

(** X1.  [init_fonts] ends with both fonts set, at sizes 20 and 32 and from
    one source: simhei.ttf when it loads at both sizes, else msyh.ttc when
    it loads at both sizes, else the system font.  What a [try] block
    assigned before it failed is not kept, and neither is what the object
    held before; the screen is left alone. *)
Theorem init_fonts_ranked (self : RendererObject) :
  let simhei := "C:/Windows/Fonts/simhei.ttf" in
  let msyh := "C:/Windows/Fonts/msyh.ttc" in
  let system := "microsoftyaheimicrosoftyaheiui" in
  let fonts f g :=
    {| self_screen := self_screen self; self_font := Some f; self_big_font := Some g |} in
  (forall f g, Font simhei 20 = Some f -> Font simhei 32 = Some g ->
     init_fonts self = fonts f g) /\
  (forall f g, Font simhei 20 = None \/ Font simhei 32 = None ->
     Font msyh 20 = Some f -> Font msyh 32 = Some g ->
     init_fonts self = fonts f g) /\
  (Font simhei 20 = None \/ Font simhei 32 = None ->
   Font msyh 20 = None \/ Font msyh 32 = None ->
   init_fonts self = fonts (SysFont system 20) (SysFont system 32)).
Proof.
  intros simhei msyh system fonts. unfold init_fonts, load_fonts. fold simhei msyh system.
  split; [| split].
  - intros f g -> ->. done.
  - intros f g Hfirst -> ->.
    destruct (Font simhei 20); [destruct (Font simhei 32) |]; try done;
      destruct Hfirst; done.
  - intros Hfirst Hsecond.
    destruct (Font simhei 20); [destruct (Font simhei 32) |];
      try (destruct Hfirst; done);
      (destruct (Font msyh 20); [destruct (Font msyh 32) |];
       try (destruct Hsecond; done); done).
Qed.

End FontProperties.

Section MoreProperties.
Context {constants : Constants} {config_manager : ConfigManager}.

(** ** draw_board on boards with stray home cells *)


Lemma select_fill_color_result cell :
  (exists c, select_fill_color cell = inr c) \/ select_fill_color cell = inl IndexError.
Proof. destruct (select_fill_color cell) as [[] | c]; eauto. Qed.



(** The loop from index [i] on, when the cell [k] rounds later is the first
    stray one. *)
Lemma draw_cells_stop board l : forall i k p,
  l !! k = Some p ->
  (forall j q, (j < k)%nat -> l !! j = Some q ->
     well_owned (get_cell board (Z.of_nat (i + j)))) ->
  is_home_cell (get_cell board (Z.of_nat (i + k))) = true ->
  ~ valid_index HOME_COLORS (owner (get_cell board (Z.of_nat (i + k)))) ->
  exists renders : list (list DrawOp),
    emits (for_enumerate (draw_cell board) i l tt) (concat renders) (inl IndexError) /\
    length renders = k /\
    forall j q, (j < k)%nat -> l !! j = Some q ->
      exists c, select_fill_color (get_cell board (Z.of_nat (i + j))) = inr c /\
        renders !! j = Some
          [ DrawRect c (cell_rect q) 0;
            DrawRect BLACK (cell_rect q) 2;
            Blit (render (str (Z.of_nat (i + j))) BLACK) (Centered (q.1, q.2 - 20));
            Blit (render (type_text (get_cell board (Z.of_nat (i + j)))) BLACK)
                 (Centered (q.1, q.2 + 10)) ].
Proof.
  induction l as [| p0 l IH]; intros i k p Hk Hbefore Hhome Hstray; [done |].
  destruct k as [| k].
  - exists []. rewrite Nat.add_0_r in Hhome, Hstray. split; [| split; [done |]].
    + cbn [for_enumerate]. apply emits_bind_exn, draw_cell_raises.
      by apply select_fill_color_stray.
    + intros j q Hj. lia.
  - destruct (select_fill_color_well_owned (get_cell board (Z.of_nat i))) as [c Hc].
    { specialize (Hbefore 0%nat p0). rewrite Nat.add_0_r in Hbefore.
      apply Hbefore; [lia | done]. }
    destruct (IH (S i) k p) as (renders & Hloop & Hlen & Hnth).
    + done.
    + intros j q Hj Hq. replace (S i + j)%nat with (i + S j)%nat by lia.
      apply (Hbefore (S j) q); [lia | done].
    + by replace (S i + k)%nat with (i + S k)%nat by lia.
    + by replace (S i + k)%nat with (i + S k)%nat by lia.
    + eexists (_ :: renders). split; [| split].
      * cbn [for_enumerate]. simpl concat.
        eapply emits_bind; [by apply draw_cell_emits | apply Hloop].
      * simpl. by rewrite Hlen.
      * intros [| j] q Hj Hq; simpl in Hq.
        -- injection Hq as <-. exists c. by rewrite Nat.add_0_r.
        -- destruct (Hnth j q) as (c' & Hc' & Hr); [lia | done |].
           exists c'. by replace (i + S j)%nat with (S i + j)%nat by lia.
Qed.

(** X3.  When the first stray home cell of a board is at index [k],
    [draw_board] clears the background, renders the cells before [k] in
    full, draws nothing of cell [k] or of any later cell, and raises
    [IndexError]. *)
Theorem draw_board_stops_at_first_stray board w (k : nat) p :
  cell_positions board !! k = Some p ->
  (forall (j : nat) q, (j < k)%nat -> cell_positions board !! j = Some q ->
     well_owned (get_cell board (Z.of_nat j))) ->
  is_home_cell (get_cell board (Z.of_nat k)) = true ->
  ~ valid_index HOME_COLORS (owner (get_cell board (Z.of_nat k))) ->
  exists renders : list (list DrawOp),
    draw_board board w = (drawn w (Fill WHITE :: concat renders), inl IndexError) /\
    length renders = k /\
    forall (j : nat) q, (j < k)%nat -> cell_positions board !! j = Some q ->
      exists c, select_fill_color (get_cell board (Z.of_nat j)) = inr c /\
        renders !! j = Some
          [ DrawRect c (cell_rect q) 0;
            DrawRect BLACK (cell_rect q) 2;
            Blit (render (str (Z.of_nat j)) BLACK) (Centered (q.1, q.2 - 20));
            Blit (render (type_text (get_cell board (Z.of_nat j))) BLACK)
                 (Centered (q.1, q.2 + 10)) ].
Proof.
  intros Hk Hbefore Hhome Hstray.
  destruct (draw_cells_stop board (cell_positions board) 0 k p Hk Hbefore Hhome Hstray)
    as (renders & Hloop & Hlen & Hnth).
  exists renders. split; [| split; [done | exact Hnth]].
  unfold draw_board. by apply emits_paint_then.
Qed.

(** X4.  Python's subscription wraps a negative owner around: a home cell
    whose owner is a valid index gets the home colour at position
    [owner mod len(HOME_COLORS)], so owner [-1] gets the last one. *)
Theorem home_color_wraps cell :
  is_home_cell cell = true ->
  valid_index HOME_COLORS (owner cell) ->
  forall c,
    select_fill_color cell = inr c <->
    HOME_COLORS !! Z.to_nat (owner cell mod Z.of_nat (length HOME_COLORS)) = Some c.
Proof.
  unfold select_fill_color, valid_index, getitem. intros -> Hk c.
  set (n := Z.of_nat (length HOME_COLORS)) in *. set (k := owner cell) in *.
  assert ((if k <? 0 then k + n else k) = k mod n) as ->.
  { destruct (Z.ltb_spec k 0).
    - apply (Z.mod_unique k n (-1)); lia.
    - symmetry. apply Z.mod_small. lia. }
  assert (0 <= k mod n < n) as Hmod by (apply Z.mod_pos_bound; lia).
  destruct (Z.ltb_spec (k mod n) 0); [lia |].
  destruct (HOME_COLORS !! Z.to_nat (k mod n)); split; intros E; by simplify_eq.
Qed.

(** The loop from index [i] on reads the cells at the indices it visits. *)
Lemma draw_cells_read board board' l : forall i w,
  (forall j p, l !! j = Some p ->
     get_cell board (Z.of_nat (i + j)) = get_cell board' (Z.of_nat (i + j))) ->
  for_enumerate (draw_cell board) i l tt w = for_enumerate (draw_cell board') i l tt w.
Proof.
  induction l as [| p l IH]; intros i w Hsame; [done |].
  cbn [for_enumerate]. unfold bind.
  assert (draw_cell board i p tt = draw_cell board' i p tt) as ->.
  { unfold draw_cell. specialize (Hsame 0%nat p eq_refl).
    rewrite Nat.add_0_r in Hsame. by rewrite Hsame. }
  destruct (draw_cell board' i p tt w) as [w' [e | []]]; [done |].
  apply IH. intros j q Hq. specialize (Hsame (S j) q Hq).
  by replace (S i + j)%nat with (i + S j)%nat by lia.
Qed.

(** X12.  Of a board, [draw_board] reads the list of cell positions and the
    cells at the indices of that list.  Two boards that agree on these are
    drawn alike, with the same outcome, whatever [get_cell_position] and the
    cells at other indices are. *)
Theorem draw_board_reads_listed_cells board board' w :
  cell_positions board = cell_positions board' ->
  (forall (i : nat) p, cell_positions board !! i = Some p ->
     get_cell board (Z.of_nat i) = get_cell board' (Z.of_nat i)) ->
  draw_board board w = draw_board board' w.
Proof.
  intros Hpos Hcells. unfold draw_board, bind, paint. rewrite <- Hpos.
  by apply (draw_cells_read board board' (cell_positions board) 0).
Qed.

(** ** draw_players: the ring, stale animations, what is read of a player *)

Lemma ring_count_app ops1 ops2 :
  ring_count (ops1 ++ ops2) = (ring_count ops1 + ring_count ops2)%nat.
Proof. unfold ring_count. by rewrite List.filter_app, length_app. Qed.

Lemma ring_count_token highlight c p :
  ring_count (token highlight c p) = if highlight then 1%nat else 0%nat.
Proof. by destruct highlight. Qed.

Lemma length_token highlight c p :
  length (token highlight c p) = (2 + if highlight then 1 else 0)%nat.
Proof. by destruct highlight. Qed.

(** Rings and drawing calls of the loop from index [i] on. *)
Lemma tokens_from_count am board l : forall i,
  let ops := concat (imap (fun j player =>
               token (is_moving am (Z.of_nat (i + j))) (color player)
                     (token_center am board (Z.of_nat (i + j)) player)) l) in
  ring_count ops
    = (if player_moving am && (Z.of_nat i <=? moving_player_id am)
          && (moving_player_id am <? Z.of_nat (i + length l))
       then 1%nat else 0%nat) /\
  length ops = (2 * length l + ring_count ops)%nat.
Proof.
  induction l as [| player l IH]; intros i; cbn zeta.
  - simpl. split; [| done].
    destruct (player_moving am); cbn [andb]; [| done].
    destruct (Z.leb_spec (Z.of_nat i) (moving_player_id am)),
      (Z.ltb_spec (moving_player_id am) (Z.of_nat (i + 0))); cbn [andb]; try done; lia.
  - rewrite imap_cons. simpl concat.
    rewrite ring_count_app, length_app, ring_count_token, length_token, Nat.add_0_r.
    erewrite (imap_ext _ (fun j player0 =>
       token (is_moving am (Z.of_nat (S i + j))) (color player0)
             (token_center am board (Z.of_nat (S i + j)) player0))).
    2: { intros j q _. unfold compose. by replace (i + S j)%nat with (S i + j)%nat by lia. }
    destruct (IH (S i)) as [Hrings Hlen]. cbn zeta in Hrings, Hlen.
    rewrite Hlen, Hrings. unfold is_moving. simpl length.
    destruct (player_moving am); cbn [andb]; [| lia].
    repeat match goal with
           | |- context [Z.eqb ?a ?b] => destruct (Z.eqb_spec a b)
           | |- context [Z.leb ?a ?b] => destruct (Z.leb_spec a b)
           | |- context [Z.ltb ?a ?b] => destruct (Z.ltb_spec a b)
           end; cbn [andb]; lia.
Qed.

(** X5.  A frame has at most one ring: [draw_players] draws exactly one
    while [player_moving] is set and [moving_player_id] is the index of a
    player in the list, and none otherwise; beside the ring it issues two
    drawing calls per player. *)
Theorem draw_players_one_ring players board am w :
  exists ops,
    draw_players players board am w = (drawn w ops, inr tt) /\
    ring_count ops
      = (if player_moving am && (0 <=? moving_player_id am)
            && (moving_player_id am <? Z.of_nat (length players))
         then 1%nat else 0%nat) /\
    length ops = (2 * length players + ring_count ops)%nat.
Proof.
  eexists. split; [apply (draw_players_from board am players 0) |].
  apply (tokens_from_count am board players 0).
Qed.

(** X6.  While nobody is moving, or [moving_player_id] is not the index of
    a player in the list, [draw_players] never asks the animation manager
    for a position: every token is the disc and outline at the position of
    the player's cell plus the offset of its index. *)
Theorem draw_players_static players board am w :
  player_moving am = false \/ moving_player_id am < 0
    \/ Z.of_nat (length players) <= moving_player_id am ->
  draw_players players board am w =
    (drawn w (concat (imap (fun i player =>
       let pos := get_cell_position board (position player) in
       let at_ := (pos.1 + offset_x (Z.of_nat i), pos.2 + offset_y (Z.of_nat i)) in
       [DrawCircle (color player) at_ 8 0; DrawCircle BLACK at_ 8 2]) players)),
     inr tt).
Proof.
  intros Hstale. unfold draw_players.
  rewrite (draw_players_from board am players 0 w).
  do 3 f_equal. apply imap_ext. intros i player Hi. simpl.
  apply lookup_lt_Some in Hi.
  assert (is_moving am (Z.of_nat i) = false) as Hstill.
  { unfold is_moving. destruct (player_moving am); [| done]. simpl.
    destruct (Z.eqb_spec (moving_player_id am) (Z.of_nat i)); [| done].
    destruct Hstale as [? | [? | ?]]; [done | lia | lia]. }
  unfold token_center, player_screen_position. by rewrite Hstill.
Qed.

Lemma imap_Forall2 {A B} (R : A -> A -> Prop) (f g : nat -> A -> B) l1 l2 :
  Forall2 R l1 l2 ->
  (forall i x y, R x y -> f i x = g i y) ->
  imap f l1 = imap g l2.
Proof.
  intros Hl. revert f g. induction Hl as [| x y l1 l2 Hxy _ IH]; intros f g Hfg; [done |].
  rewrite !imap_cons. f_equal; [by apply Hfg |].
  apply IH. intros i x' y' HR. unfold compose. by apply Hfg.
Qed.

(** X7.  Of a player, [draw_players] reads the colour and the position
    only.  Two player lists that agree on these, player by player, are drawn
    alike, whatever the ids, names, money and AI flags: the moving player is
    found by its place in the list. *)
Theorem draw_players_reads_color_and_position players players' board am w :
  Forall2 (fun p q => color p = color q /\ position p = position q) players players' ->
  draw_players players board am w = draw_players players' board am w.
Proof.
  intros Hsame. unfold draw_players.
  rewrite (draw_players_from board am players 0 w),
    (draw_players_from board am players' 0 w).
  do 3 f_equal. eapply imap_Forall2; [exact Hsame |].
  intros i p q [Hcolor Hpos]. simpl.
  unfold token_center, player_screen_position. by rewrite Hcolor, Hpos.
Qed.

(** X8.  The offsets tell all players apart: two list indices get the same
    offset pair only when they are the same index. *)
Theorem player_offsets_injective (i j : nat) :
  (offset_x (Z.of_nat i), offset_y (Z.of_nat i))
    = (offset_x (Z.of_nat j), offset_y (Z.of_nat j)) <-> i = j.
Proof.
  split; [| by intros ->].
  intros [= Hx Hy]. apply Nat2Z.inj. apply offsets_inj; [lia | lia | done | done].
Qed.

(** ** draw_ui: the layout of the panel, and the two copies of the naming rule *)

Lemma draw_status_layout gl y :
  emits (draw_status gl y)
    ((if dice_result gl >? 0
      then [Blit (render ("移动骰子点数: " +:+ str (dice_result gl)) BLACK)
                 (TopLeft (10, y + 20))]
      else [])
     ++ (if effect_dice_result gl >? 0
         then [Blit (render ("效果骰子点数: " +:+ str (effect_dice_result gl)) BLACK)
                    (TopLeft (10, if dice_result gl >? 0 then y + 45 else y + 20))]
         else [])
     ++ [ Blit (render (message gl) BLACK) (TopLeft (10, WINDOW_HEIGHT - 80));
          Blit (if waiting_for_effect_dice gl
                then render ("等待 " +:+ current_player_name gl +:+ " 投掷效果骰子...") GOLD
                else render (current_player_name gl +:+ " 的回合") BLACK)
               (Centered (WINDOW_WIDTH / 2, WINDOW_HEIGHT - 40)) ])
    (inr tt).
Proof.
  intros w. assert (y + 25 + 20 = y + 45) as Hy by lia.
  unfold draw_status, bind, paint, ret, drawn.
  destruct (dice_result gl >? 0), (effect_dice_result gl >? 0),
    (waiting_for_effect_dice gl); simpl; rewrite <- ?app_assoc, ?Hy; reflexivity.
Qed.

(** X9.  The panel of [draw_ui], top down: one line per player in list
    order, 30 pixels apart from [y = 10]; the move-die line when the result
    is positive, 20 pixels below the place of the next player line; the
    effect-die line when its result is positive, 25 pixels below the move-die
    line or in its place; the message; the status line, gold while the game
    waits for the effect die. *)
Theorem draw_panel_layout gl w :
  let y := 10 + 30 * Z.of_nat (length (players gl)) in
  draw_panel gl w =
    (drawn w
       (imap (fun i player =>
          Blit (player_line gl (Z.of_nat i) player)
               (TopLeft (10, 10 + 30 * Z.of_nat i))) (players gl)
        ++ (if dice_result gl >? 0
            then [Blit (render ("移动骰子点数: " +:+ str (dice_result gl)) BLACK)
                       (TopLeft (10, y + 20))]
            else [])
        ++ (if effect_dice_result gl >? 0
            then [Blit (render ("效果骰子点数: " +:+ str (effect_dice_result gl)) BLACK)
                       (TopLeft (10, if dice_result gl >? 0 then y + 45 else y + 20))]
            else [])
        ++ [ Blit (render (message gl) BLACK) (TopLeft (10, WINDOW_HEIGHT - 80));
             Blit (if waiting_for_effect_dice gl
                   then render ("等待 " +:+ current_player_name gl +:+ " 投掷效果骰子...") GOLD
                   else render (current_player_name gl +:+ " 的回合") BLACK)
                  (Centered (WINDOW_WIDTH / 2, WINDOW_HEIGHT - 40)) ]),
     inr tt).
Proof.
  intros y. unfold draw_panel.
  apply (emits_bind _ _ _ _ _ _ (draw_player_lines_from gl (players gl) 0 10)
           (draw_status_layout gl y)).
Qed.

Lemma append_assoc (s1 s2 s3 : string) : (s1 +:+ s2) +:+ s3 = s1 +:+ (s2 +:+ s3).
Proof.
  induction s1 as [| a s1 IH]; [done |].
  change (String a ((s1 +:+ s2) +:+ s3) = String a (s1 +:+ (s2 +:+ s3))). by f_equal.
Qed.

(** X10.  The two copies of the naming rule agree: the line of the object
    [get_current_player()] returns, drawn at the index [id] of that object,
    is the name the status line uses for it, followed by its money. *)
Theorem current_player_named_alike gl :
  let player := get_current_player gl in
  player_text gl (id player) player
    = current_player_name gl +:+ ": " +:+ str (money player) +:+ "金币".
Proof.
  intros player. unfold player_text, current_player_name. fold player.
  destruct (is_ai player); simpl.
  - by rewrite append_assoc.
  - destruct (name player) as [stored |];
      [destruct (hasattr (is_local_player_turn gl) && negb (stored =? get_nickname)%string) |];
      by rewrite !append_assoc.
Qed.

(** X11.  In a game without [is_local_player_turn] the stored name of a
    human player is never shown: its line, and the status line when it is
    the current player, carry the nickname configured on this machine. *)
Theorem local_game_shows_nickname gl :
  is_local_player_turn gl = None ->
  (forall i player, is_ai player = false ->
     player_text gl i player
       = "玩家" +:+ str (i + 1) +:+ "(" +:+ get_nickname +:+ "): "
         +:+ str (money player) +:+ "金币") /\
  (is_ai (get_current_player gl) = false ->
   current_player_name gl
     = "玩家" +:+ str (id (get_current_player gl) + 1) +:+ "(" +:+ get_nickname +:+ ")").
Proof.
  intros Hlocal. split.
  - intros i player Hhuman. unfold player_text. rewrite Hlocal, Hhuman. simpl.
    by destruct (name player).
  - intros Hhuman. unfold current_player_name. rewrite Hlocal, Hhuman. simpl.
    by destruct (name (get_current_player gl)).
Qed.

End MoreProperties.

(** ** The further properties on the sample game *)

Section MoreExamples.
#[local] Existing Instance Sample.constants.
#[local] Existing Instance Sample.config_manager.
#[local] Existing Instance SampleFonts.pygame_font.
Import Sample.

(** X1 where simhei.ttf loads at size 20 and fails at size 32: both fonts
    are msyh.ttc in the end. *)
Lemma init_fonts_ranked_witness :
  init_fonts {| self_screen := []; self_font := None; self_big_font := None |}
    = {| self_screen := [];
         self_font := Some ("C:/Windows/Fonts/msyh.ttc", 20);
         self_big_font := Some ("C:/Windows/Fonts/msyh.ttc", 32) |}.
Proof.
  destruct (init_fonts_ranked
              {| self_screen := []; self_font := None; self_big_font := None |})
    as (_ & Hsecond & _).
  apply Hsecond; [right |..]; reflexivity.
Defined.

(** X3 on the board whose second cell is the home of a fifth player. *)
Lemma draw_board_stops_at_first_stray_witness :
  exists renders : list (list DrawOp),
    draw_board stray_board world
      = (drawn world (Fill WHITE :: concat renders), inl IndexError) /\
    length renders = 1%nat.
Proof.
  destruct (draw_board_stops_at_first_stray stray_board world 1 (200, 100))
    as (renders & Hdraw & Hlen & _).
  - reflexivity.
  - intros [| j] q Hj Hq Hhome; [discriminate Hhome | lia].
  - reflexivity.
  - unfold valid_index. simpl. lia.
  - exists renders. split; [exact Hdraw | exact Hlen].
Defined.

(** X4 on a home cell with owner -1: the last of the four home colours. *)
Lemma home_color_wraps_witness :
  select_fill_color (home (-1)) = inr (255, 255, 200).
Proof.
  apply (home_color_wraps (home (-1))).
  - reflexivity.
  - unfold valid_index. simpl. lia.
  - reflexivity.
Defined.

(** X6 when the animation names a sixth player of two. *)
Lemma draw_players_static_witness :
  let stale := {| player_moving := true; moving_player_id := 5;
                  get_animated_player_position := fun _ _ => (250, 100) |} in
  (draw_players [human 0 "Ann"; robot 1] board stale world).1
    = drawn world
        [ DrawCircle (200, 0, 0) (293, 93) 8 0; DrawCircle BLACK (293, 93) 8 2;
          DrawCircle (0, 0, 200) (308, 93) 8 0; DrawCircle BLACK (308, 93) 8 2 ].
Proof.
  intros stale.
  rewrite (draw_players_static [human 0 "Ann"; robot 1] board stale world).
  - reflexivity.
  - right. right. simpl. lia.
Defined.

(** X7: renaming, renumbering and paying the players changes no token. *)
Lemma draw_players_reads_color_and_position_witness :
  draw_players [human 0 "Ann"; robot 1] board animation world
    = draw_players
        [ {| id := 7; money := 0; color := (200, 0, 0); is_ai := true;
             name := None; position := 2; get_player_type_name := "" |};
          robot 1 ] board animation world.
Proof.
  apply draw_players_reads_color_and_position.
  repeat constructor.
Defined.

(** X11 on the second of two people at one machine, stored as Bea. *)
Lemma local_game_shows_nickname_witness :
  player_text hotseat_game 1 (human 1 "Bea") = "玩家2(Ann): 100金币".
Proof.
  destruct (local_game_shows_nickname hotseat_game eq_refl) as [Hline _].
  exact (Hline 1 (human 1 "Bea") eq_refl).
Defined.

(** X12: moving the cell positions the tokens use, and changing a cell the
    board does not list, changes nothing of the board drawn. *)
Lemma draw_board_reads_listed_cells_witness :
  draw_board board world
    = draw_board
        {| cell_positions := cell_positions board;
           get_cell := fun i => if i =? 3 then home 9 else get_cell board i;
           get_cell_position := fun _ => (0, 0) |} world.
Proof.
  apply draw_board_reads_listed_cells; [reflexivity |].
  intros [| [| [| i]]] p Hp; [reflexivity | reflexivity | reflexivity | discriminate Hp].
Defined.

End MoreExamples.

(** * The renderer on the caller's own objects *)

Lemma keeps_ret {A} (a : A) : keeps (ret a).
Proof. intros w. split; [done |]. exists []. simpl. by rewrite app_nil_r. Qed.

Lemma keeps_lift {A} (r : Exn + A) : keeps (lift r).
Proof. intros w. split; [done |]. exists []. simpl. by rewrite app_nil_r. Qed.

Lemma keeps_read {A} (f : Inputs -> A) : keeps (read f).
Proof. intros w. split; [done |]. exists []. simpl. by rewrite app_nil_r. Qed.

Lemma keeps_paint op : keeps (paint op).
Proof. intros w. split; [done |]. by exists [op]. Qed.

Lemma keeps_bind {A B} (m : M A) (k : A -> M B) :
  keeps m -> (forall a, keeps (k a)) -> keeps (bind m k).
Proof.
  intros Hm Hk w. unfold bind. destruct (Hm w) as [Hin [ops Hops]].
  destruct (m w) as [w' [e | a]]; simpl in *.
  - split; [done | by exists ops].
  - destruct (Hk a w') as [Hin' [ops' Hops']]. split; [congruence |].
    exists (ops ++ ops'). by rewrite Hops', Hops, app_assoc.
Qed.

Lemma keeps_for_enumerate {A St} (body : nat -> A -> St -> M St) l :
  (forall i x s, keeps (body i x s)) ->
  forall i s, keeps (for_enumerate body i l s).
Proof.
  intros Hbody. induction l as [| x l IH]; intros i s; simpl.
  - apply keeps_ret.
  - apply keeps_bind; [apply Hbody | intros s'; apply IH].
Qed.

(** A program made of attribute reads, drawing calls, calls of read-only
    methods and the control flow of the source. *)
Ltac keeps_program Hmethods :=
  repeat match goal with
         | |- keeps (ret _) => apply keeps_ret
         | |- keeps (lift _) => apply keeps_lift
         | |- keeps (read _) => apply keeps_read
         | |- keeps (paint _) => apply keeps_paint
         | |- keeps (bind _ _) => apply keeps_bind; [| intros ?]
         | |- keeps (if ?b then _ else _) => destruct b
         | |- keeps (match ?x with _ => _ end) => destruct x
         | |- keeps _ => apply Hmethods
         end.

Section LiveProperties.
Context {constants : Constants}.

Lemma keeps_shown_name (methods : Methods) is_network_game player :
  ReadOnly methods -> keeps (Live.shown_name is_network_game player).
Proof. intros Hmethods. unfold Live.shown_name. keeps_program Hmethods. Qed.

(** C9.  No drawing method changes the objects it is given.  Called on the
    board, the player list, the animation manager and the game logic the
    world holds, with collaborators whose own methods leave these objects as
    they are, [draw_board], [draw_players] and [draw_ui] leave them as they
    are too, whatever the methods answer and however the call ends; all
    that happens to the surface is that it is drawn on. *)
Theorem renderer_leaves_inputs (methods : Methods) w :
  ReadOnly methods ->
  (inputs (Live.draw_board w).1 = inputs w /\
   exists ops, screen (Live.draw_board w).1 = screen w ++ ops) /\
  (inputs (Live.draw_players w).1 = inputs w /\
   exists ops, screen (Live.draw_players w).1 = screen w ++ ops) /\
  (inputs (Live.draw_ui w).1 = inputs w /\
   exists ops, screen (Live.draw_ui w).1 = screen w ++ ops).
Proof.
  intros Hmethods. split; [| split].
  - cut (keeps Live.draw_board); [intros Hkeeps; exact (Hkeeps w) |]. unfold Live.draw_board.
    keeps_program Hmethods. apply keeps_for_enumerate. intros i [x y] [].
    unfold Live.draw_cell. keeps_program Hmethods.
  - cut (keeps Live.draw_players); [intros Hkeeps; exact (Hkeeps w) |]. unfold Live.draw_players.
    keeps_program Hmethods. apply keeps_for_enumerate. intros i player [].
    unfold Live.draw_player. keeps_program Hmethods.
  - cut (keeps Live.draw_ui); [intros Hkeeps; exact (Hkeeps w) |]. unfold Live.draw_ui.
    apply keeps_bind; [apply keeps_read | intros players].
    apply keeps_bind; [| intros y_offset; apply keeps_bind; [| intros current_player]].
    + apply keeps_for_enumerate. intros i player y.
      unfold Live.draw_player_line.
      repeat first [apply keeps_shown_name; assumption | progress keeps_program Hmethods].
    + unfold Live.draw_status.
      repeat first [apply keeps_shown_name; assumption | progress keeps_program Hmethods].
    + unfold Live.draw_button. keeps_program Hmethods.
Qed.

End LiveProperties.

(** ** With collaborators that only answer, the two readings of the code agree *)

Section Accessors.
Context {constants : Constants} {config_manager : ConfigManager}.

Lemma accessors_read_only : ReadOnly accessors.
Proof. split; intros; first [apply keeps_read | apply keeps_ret]. Qed.

Lemma draw_cell_keeps_inputs board i p w :
  inputs (draw_cell board i p tt w).1 = inputs w.
Proof.
  destruct (select_fill_color_result (get_cell board (Z.of_nat i))) as [[c Hc] | He].
  - by rewrite (draw_cell_emits board i p c Hc w).
  - by rewrite (draw_cell_raises board i p _ He w).
Qed.

Lemma live_draw_cell i p w :
  Live.draw_cell (methods := accessors) i p tt w
    = draw_cell (the_board (inputs w)) i p tt w.
Proof.
  destruct p as [x y].
  unfold Live.draw_cell, draw_cell, select_fill_color, type_text, bind, read, ret, lift.
  simpl. set (cell := get_cell (the_board (inputs w)) (Z.of_nat i)).
  destruct (is_home_cell cell); [by destruct (getitem HOME_COLORS (owner cell)) |].
  by destruct (is_reward_cell cell), (is_penalty_cell cell).
Qed.

Lemma live_draw_cells l : forall i w,
  for_enumerate (Live.draw_cell (methods := accessors)) i l tt w
    = for_enumerate (draw_cell (the_board (inputs w))) i l tt w.
Proof.
  induction l as [| p l IH]; intros i w; [done |].
  cbn [for_enumerate]. unfold bind. rewrite live_draw_cell.
  pose proof (draw_cell_keeps_inputs (the_board (inputs w)) i p w) as Hin.
  destruct (draw_cell (the_board (inputs w)) i p tt w) as [w' [e | []]]; [done |].
  simpl in Hin. rewrite IH. by rewrite Hin.
Qed.

(** [draw_board] on the board of the world. *)
Lemma live_draw_board w :
  Live.draw_board (methods := accessors) w = draw_board (the_board (inputs w)) w.
Proof.
  unfold Live.draw_board, draw_board, bind, paint, read. simpl.
  apply (live_draw_cells _ 0 (drawn w [Fill WHITE])).
Qed.

Lemma live_draw_player i player w :
  Live.draw_player (methods := accessors) i player tt w
    = draw_player (the_board (inputs w)) (the_animation (inputs w)) i player tt w.
Proof.
  unfold Live.draw_player, draw_player, player_screen_position, bind, ret. simpl.
  unfold read. simpl.
  destruct (is_moving (the_animation (inputs w)) (Z.of_nat i)) eqn:Hmoving.
  - destruct (get_animated_player_position _ _ _) as [pos_x pos_y].
    simpl. by rewrite Hmoving.
  - destruct (get_cell_position _ _) as [pos_x pos_y].
    simpl. by rewrite Hmoving.
Qed.

Lemma live_draw_players_from l : forall i w,
  for_enumerate (Live.draw_player (methods := accessors)) i l tt w
    = for_enumerate (draw_player (the_board (inputs w)) (the_animation (inputs w)))
        i l tt w.
Proof.
  induction l as [| player l IH]; intros i w; [done |].
  cbn [for_enumerate]. unfold bind. rewrite live_draw_player.
  rewrite (draw_player_emits (the_board (inputs w)) (the_animation (inputs w)) i player w).
  by rewrite IH.
Qed.

(** [draw_players] on the player list, the board and the animation manager
    of the world. *)
Lemma live_draw_players w :
  Live.draw_players (methods := accessors) w
    = draw_players (the_players (inputs w)) (the_board (inputs w))
        (the_animation (inputs w)) w.
Proof. apply (live_draw_players_from _ 0 w). Qed.

Lemma live_draw_player_line i player y w :
  Live.draw_player_line (methods := accessors) i player y w
    = draw_player_line (the_game_logic (inputs w)) i player y w.
Proof.
  unfold Live.draw_player_line, draw_player_line, Live.shown_name, Live.marked,
    player_line, player_text, bind, read, ret, paint. simpl.
  destruct (is_ai player); [done |]. simpl.
  destruct (name player) as [stored |]; [| done].
  destruct (hasattr (is_local_player_turn (the_game_logic (inputs w)))); [| done].
  simpl. by destruct (stored =? get_nickname)%string.
Qed.

Lemma live_draw_player_lines_from l : forall i y w,
  for_enumerate (Live.draw_player_line (methods := accessors)) i l y w
    = for_enumerate (draw_player_line (the_game_logic (inputs w))) i l y w.
Proof.
  induction l as [| player l IH]; intros i y w; [done |].
  cbn [for_enumerate]. unfold bind. rewrite live_draw_player_line.
  unfold draw_player_line at 1 3. unfold bind, paint, ret. by rewrite IH.
Qed.

(** [draw_ui] on the game logic of the world. *)
Lemma live_draw_ui w :
  Live.draw_ui (methods := accessors) w = draw_ui (the_game_logic (inputs w)) w.
Proof.
  pose proof (live_draw_player_lines_from (players (the_game_logic (inputs w))) 0 10 w)
    as Hlive.
  pose proof (draw_player_lines_from (the_game_logic (inputs w))
                (players (the_game_logic (inputs w))) 0 10 w) as Hlines.
  destruct w as [[board seats animation gl] surface]. simpl in Hlive, Hlines.
  unfold Live.draw_ui, draw_ui, draw_panel, draw_player_lines, bind.
  unfold read at 1. simpl. rewrite Hlive, Hlines. clear Hlive Hlines.
  generalize (10 + 30 * Z.of_nat (length (players gl))). intros y.
  generalize (imap (fun (j : nat) (player : Player) =>
                      Blit (player_line gl (Z.of_nat j) player)
                           (TopLeft (10, 10 + 30 * Z.of_nat j))) (players gl)).
  intros ops.
  unfold Live.draw_status, Live.draw_button, Live.shown_name, draw_status, draw_button,
    should_show_button, current_player_name, bind, ret, paint, drawn. simpl.
  unfold read. simpl.
  destruct gl as [seats' turn dice effect msg waiting over current local_turn slot].
  destruct current as [cid cmoney ccolor cai cname cposition ctype].
  destruct waiting, over, cai, cname as [stored |], local_turn as [[] |];
    repeat (simpl; first
      [ reflexivity
      | match goal with
        | H : ?x = _ |- context [?x] => rewrite H
        | |- context [Z.gtb ?a ?b] => destruct (Z.gtb a b) eqn:?
        | |- context [String.eqb ?a ?b] => destruct (String.eqb a b) eqn:?
        end ]).
Qed.

End Accessors.

(** C9 on the sample game, with collaborators that only answer. *)
Lemma renderer_leaves_inputs_witness :
  @ReadOnly (@accessors Sample.config_manager) /\
  inputs (@Live.draw_ui Sample.constants (@accessors Sample.config_manager) Sample.world).1
    = inputs Sample.world.
Proof.
  split; [apply accessors_read_only |].
  destruct (@renderer_leaves_inputs Sample.constants
              (@accessors Sample.config_manager) Sample.world
              (@accessors_read_only Sample.config_manager))
    as (_ & _ & Hui & _).
  exact Hui.
Defined.

(** * The mark of the local player *)

Section LocalPlayer.
Context {constants : Constants} {config_manager : ConfigManager}.


End LocalPlayer.


